(** * Ralph mode: the iterative agent-turn controller of letta-code

    A shallow embedding of [src/ralph/cli.ts] (the command-line handler
    [handleRalphCommand]) together with the loop-state manager
    [ralphMode] it drives, and the properties of the controller that the
    design document states.

    Strings are byte strings ([string]) holding UTF-8; JavaScript
    numbers that count iterations are [Z]; parsed tool arguments are a
    [json] value, an object being a [gmap string json]; an exception
    thrown by the language itself is a [Throw] completion; the remote
    platform, the permission subsystem and the tool executor are the
    fields of a [Platform] interface acting on an abstract [World]. *)

From Stdlib Require Import ZArith Ascii String List Bool Lia.
From Stdlib Require Import DecimalString DecimalZ.
From stdpp Require Import base option list strings gmap.

#[local] Open Scope Z_scope.
#[local] Arguments String.append : simpl nomatch.
#[local] Set Warnings "-register-all".

(* ===================================================================== *)
(** * JavaScript string helpers *)
(* ===================================================================== *)

Module JsString.

(** The ASCII white space: TAB, LF, VT, FF, CR and SPACE. [trimStart],
    [trimEnd], [trim] and [collapse] below act on it; they serve the
    normalization of the loop-state manager. The [trim] of the handler
    itself, over the whole white space of ECMAScript, is [trimPoints]
    further down. *)
Definition is_space (c : ascii) : bool := Ascii.is_space c.

(** [s.trimStart()], on ASCII white space *)
Fixpoint trimStart (s : string) : string :=
  match s with
  | "" => ""
  | String a r => if is_space a then trimStart r else s
  end.

(** [s.trimEnd()], on ASCII white space *)
Fixpoint trimEnd (s : string) : string :=
  match s with
  | "" => ""
  | String a r =>
      match trimEnd r with
      | "" => if is_space a then "" else String a ""
      | r' => String a r'
      end
  end.

(** [s.trim()], on ASCII white space *)
Definition trim (s : string) : string := trimEnd (trimStart s).

(** [s.replace(/\s+/g, " ")]: every maximal run of white space becomes
    one space. The space is emitted at the last character of the run. *)
Fixpoint collapse (s : string) : string :=
  match s with
  | "" => ""
  | String a r =>
      if is_space a then
        match r with
        | "" => " "
        | String b _ => if is_space b then collapse r else String " " (collapse r)
        end
      else String a (collapse r)
  end.

(** ASCII lower-casing of one character, as [toLowerCase] and the [i]
    flag of a regular expression act on ASCII letters. *)
Definition lower (c : ascii) : ascii :=
  let n := N_of_ascii c in
  if ((65 <=? n) && (n <=? 90))%N then ascii_of_N (n + 32) else c.

(** [s.toLowerCase()] *)
Fixpoint toLowerCase (s : string) : string :=
  match s with
  | "" => ""
  | String a r => String (lower a) (toLowerCase r)
  end.

(** Equality of characters up to ASCII case. *)
Definition ci_eqb (a b : ascii) : bool := Ascii.eqb (lower a) (lower b).

(** [strip_prefix_ci pat s]: when [s] starts with [pat] up to case, the
    rest of [s] after it. *)
Fixpoint strip_prefix_ci (pat s : string) : option string :=
  match pat with
  | "" => Some s
  | String p pat' =>
      match s with
      | "" => None
      | String a r => if ci_eqb p a then strip_prefix_ci pat' r else None
      end
  end.

(** [split_at_ci pat s]: the text before and the text after the first
    (leftmost) occurrence of [pat] in [s], up to case. *)
Fixpoint split_at_ci (pat s : string) : option (string * string) :=
  match strip_prefix_ci pat s with
  | Some rest => Some ("", rest)
  | None =>
      match s with
      | "" => None
      | String a r =>
          match split_at_ci pat r with
          | Some (before, after) => Some (String a before, after)
          | None => None
          end
      end
  end.

(** [l.join(sep)] *)
Fixpoint join (sep : string) (l : list string) : string :=
  match l with
  | [] => ""
  | [x] => x
  | x :: rest => x +:+ sep +:+ join sep rest
  end.

(** Decimal rendering of an integer, as a template literal renders a
    JavaScript integer. *)
Definition of_Z (z : Z) : string := NilZero.string_of_int (Z.to_int z).

(** [blank s]: [s] consists of white space only. *)
Fixpoint blank (s : string) : bool :=
  match s with
  | "" => true
  | String a r => is_space a && blank r
  end.

(** [ci_equal a b]: [a] and [b] are the same string up to case. *)
Fixpoint ci_equal (a b : string) : bool :=
  match a, b with
  | "", "" => true
  | String x a', String y b' => ci_eqb x y && ci_equal a' b'
  | _, _ => false
  end.

Definition starts_space (s : string) : bool :=
  match s with
  | "" => false
  | String a _ => is_space a
  end.

(** [avoids x pat]: no character of [pat] equals [x] up to case. *)
Fixpoint avoids (x : ascii) (pat : string) : bool :=
  match pat with
  | "" => true
  | String p pat' => negb (ci_eqb p x) && avoids x pat'
  end.

(** [numeral s]: [s] is made of decimal digits and minus signs. *)
Fixpoint numeral (s : string) : bool :=
  match s with
  | "" => true
  | String a r =>
      (Ascii.eqb a "-" || ((48 <=? N_of_ascii a) && (N_of_ascii a <=? 57))%N)
      && numeral r
  end.

(** ** Code points and the white space of ECMAScript *)

Definition continuation (x : N) : bool := ((128 <=? x) && (x <? 192))%N.

(** The code points of a string held as UTF-8. A byte that starts no
    well-formed shortest-form sequence stands for U+FFFD. *)
Fixpoint codePoints (s : string) : list N :=
  match s with
  | "" => []
  | String a r =>
      let x := N_of_ascii a in
      if (x <? 128)%N then x :: codePoints r
      else
        match r with
        | String b r1 =>
            let y := N_of_ascii b in
            if ((194 <=? x) && (x <? 224) && continuation y)%N
            then ((x - 192) * 64 + (y - 128))%N :: codePoints r1
            else
              match r1 with
              | String c r2 =>
                  let z := N_of_ascii c in
                  let three := ((x - 224) * 4096 + (y - 128) * 64 + (z - 128))%N in
                  if ((224 <=? x) && (x <? 240) && continuation y && continuation z
                      && (2048 <=? three))%N
                  then three :: codePoints r2
                  else
                    match r2 with
                    | String d r3 =>
                        let u := N_of_ascii d in
                        let four :=
                          ((x - 240) * 262144 + (y - 128) * 4096
                           + (z - 128) * 64 + (u - 128))%N in
                        if ((240 <=? x) && (x <? 248) && continuation y
                            && continuation z && continuation u
                            && (65536 <=? four) && (four <? 1114112))%N
                        then four :: codePoints r3
                        else 65533%N :: codePoints r
                    | "" => 65533%N :: codePoints r
                    end
              | "" => 65533%N :: codePoints r
              end
        | "" => 65533%N :: codePoints r
        end
  end.

(** WhiteSpace and LineTerminator of ECMAScript, the code points that
    [String.prototype.trim] strips: TAB, LF, VT, FF, CR, SPACE, U+00A0,
    U+1680, U+2000 to U+200A, U+2028, U+2029, U+202F, U+205F, U+3000
    and U+FEFF. *)
Definition isWhiteSpace (c : N) : bool :=
  ((c =? 9) || (c =? 10) || (c =? 11) || (c =? 12) || (c =? 13) || (c =? 32)
   || (c =? 160) || (c =? 5760) || ((8192 <=? c) && (c <=? 8202))
   || (c =? 8232) || (c =? 8233) || (c =? 8239) || (c =? 8287)
   || (c =? 12288) || (c =? 65279))%N.

Fixpoint dropWhiteSpace (l : list N) : list N :=
  match l with
  | [] => []
  | c :: r => if isWhiteSpace c then dropWhiteSpace r else l
  end.

(** [s.trim()], on the code points of [s] *)
Definition trimPoints (l : list N) : list N :=
  rev (dropWhiteSpace (rev (dropWhiteSpace l))).

(** [s.trim().length > 0] *)
Definition trimsToText (s : string) : bool :=
  (0 <? length (trimPoints (codePoints s)))%nat.

End JsString.

(* ===================================================================== *)
(** * The loop state manager ([src/ralph/mode.ts]) *)
(* ===================================================================== *)

Module RalphMode.

(** [RalphState], as [getState] returns it and the tests read it. *)
Record RalphState := mkRalphState {
  isActive : bool;
  isYolo : bool;
  originalPrompt : string;
  completionPromise : option string;
  maxIterations : Z;
  currentIteration : Z
}.

(** The argument [completionPromise: string | null | undefined] of
    [activate]. *)
Inductive PromiseArg :=
| PromiseUndefined
| PromiseNull
| PromiseText (s : string).

(** Modelled from the spec: [DEFAULT_COMPLETION_PROMISE] of mode.ts is
    not among the sources. The design document and the tests fix only
    that it is a non-empty string containing "task is complete",
    "requirements" and "production-ready"; this is such a string. *)
Definition DEFAULT_COMPLETION_PROMISE : string :=
  "The task is complete. All requirements are met and the result is production-ready.".

(** Modelled from the spec: the zero state of mode.ts (section 3:
    deactivation resets every field to its zero value; test "default
    state is inactive"). *)
Definition defaultState : RalphState :=
  {| isActive := false; isYolo := false; originalPrompt := "";
     completionPromise := None; maxIterations := 0; currentIteration := 0 |}.

(** Modelled from the spec: the white-space normalization of mode.ts
    (section 4.2: runs of white space, newlines included, collapse to
    single spaces; leading and trailing white space is trimmed). *)
Definition normalize (s : string) : string :=
  JsString.trim (JsString.collapse s).

(** Modelled from the spec: which phrase [activate] of mode.ts stores
    (section 3: undefined selects the default phrase; null, the empty
    string and the case-insensitive token "none" collapse to null; any
    other phrase is stored normalized and non-null, white-space-only
    phrases included, as the test "empty promise string after
    normalization" requires). *)
Definition resolvePromise (p : PromiseArg) : option string :=
  match p with
  | PromiseUndefined => Some DEFAULT_COMPLETION_PROMISE
  | PromiseNull => None
  | PromiseText s =>
      if bool_decide (s = "") || bool_decide (JsString.toLowerCase s = "none")
      then None
      else Some (normalize s)
  end.

(** Modelled from the spec: [activate] of mode.ts (section 3, lifecycle:
    activation overwrites all fields and sets [currentIteration] to 1). *)
Definition activate (prompt : string) (p : PromiseArg) (maxIter : Z)
    (yolo : bool) (_ : RalphState) : RalphState :=
  {| isActive := true; isYolo := yolo; originalPrompt := prompt;
     completionPromise := resolvePromise p; maxIterations := maxIter;
     currentIteration := 1 |}.

(** Modelled from the spec: [deactivate] of mode.ts (section 3:
    deactivation resets every field to its zero value). *)
Definition deactivate (_ : RalphState) : RalphState := defaultState.

(** Modelled from the spec: [incrementIteration] of mode.ts (section
    4.1, [advance]: increments the counter, also while inactive). *)
Definition incrementIteration (st : RalphState) : RalphState :=
  {| isActive := isActive st; isYolo := isYolo st;
     originalPrompt := originalPrompt st;
     completionPromise := completionPromise st;
     maxIterations := maxIterations st;
     currentIteration := currentIteration st + 1 |}.

(** Modelled from the spec: [shouldContinue] of mode.ts (section 3 and
    the tests: false when inactive; false when a positive cap has been
    reached; true otherwise, so that a cap that is not positive never
    stops the loop). *)
Definition shouldContinue (st : RalphState) : bool :=
  if negb (isActive st) then false
  else if (0 <? maxIterations st) && (maxIterations st <=? currentIteration st)
       then false
       else true.

Definition openTag : string := "<promise>".
Definition closeTag : string := "</promise>".

(** Modelled from the spec: the completion matcher of mode.ts (section
    4.2). The text between the first opening tag and the first closing
    tag after it, tags matched up to case; [None] when there is no such
    pair. *)
Definition extractPromise (text : string) : option string :=
  match JsString.split_at_ci openTag text with
  | None => None
  | Some (_, afterOpen) =>
      match JsString.split_at_ci closeTag afterOpen with
      | None => None
      | Some (content, _) => Some content
      end
  end.

(** Modelled from the spec: [matches(target, candidateText)] of section
    4.2: false for a null target; otherwise the extracted content and
    the target, both normalized, are compared for exact equality. *)
Definition matches (target : option string) (text : string) : bool :=
  match target with
  | None => false
  | Some t =>
      match extractPromise text with
      | None => false
      | Some content => bool_decide (normalize content = normalize t)
      end
  end.

(** Modelled from the spec: [checkForPromise] of mode.ts, the matcher
    applied to the stored phrase. *)
Definition checkForPromise (st : RalphState) (text : string) : bool :=
  matches (completionPromise st) text.

End RalphMode.

(* ===================================================================== *)
(** * The command-line handler ([src/ralph/cli.ts]) *)
(* ===================================================================== *)

Module RalphCli.
Import RalphMode.

(** ** Data *)

(** A JSON value, as [JSON.parse] produces it: a primitive, an array,
    or a plain object with its own properties. The handler only asks
    which properties a value has and whether they are null; numbers are
    kept as integers. *)
Inductive json :=
| JNull
| JBool (b : bool)
| JNum (n : Z)
| JStr (s : string)
| JArr (items : list json)
| JObj (fields : gmap string json).

(** An exception of the language itself. The handler catches none. *)
Inductive JsError := TypeError.

(** How the evaluation of an expression ends: with a value, or by
    throwing. *)
Inductive Completion (A : Type) :=
| Normal (value : A)
| Throw (error : JsError).
Arguments Normal {A} value.
Arguments Throw {A} error.

(** A pending tool call: [{ toolCallId, toolName, toolArgs }]. *)
Record Approval := mkApproval {
  toolCallId : string;
  toolName : string;
  toolArgs : string
}.

(** The local type [Decision] of the handler. *)
Inductive Decision :=
| Approve (approval : Approval)
| Deny (approval : Approval) (reason : string).

Definition decisionApproval (d : Decision) : Approval :=
  match d with Approve a => a | Deny a _ => a end.

(** The answer of [checkToolPermission]. *)
Inductive PermissionDecision := allow | deny | ask.

Record Permission := mkPermission {
  decision : PermissionDecision;
  matchedRule : option string;
  reason : option string
}.

(** The part of a tool schema the handler reads:
    [schema?.input_schema?.required]. *)
Record InputSchema := mkInputSchema { required : option (list string) }.
Record ToolSchema := mkToolSchema { input_schema : option InputSchema }.

(** A line of the accumulator: its [kind] and, when the line has a
    [text] property holding a string, that text. *)
Record Line := mkLine { kind : string; text : option string }.

(** What draining one stream leaves behind: the lines of the buffers
    ([toLines(buffers)]) and the [stopReason] and [approvals] of the
    result. *)
Record Drained := mkDrained {
  lines : list Line;
  stopReason : string;
  approvals : option (list Approval)
}.

(** The elements of [currentInput]: a user message with one text part,
    or an approval message carrying executed results. *)
Inductive Input (R : Type) :=
| UserMessage (content : string)
| ApprovalCreate (results : list R).
Arguments UserMessage {R} content.
Arguments ApprovalCreate {R} results.

(** The collaborators of the handler and what the runtime fixes. Each
    call that may depend on or change something outside the handler
    takes and returns the [World]. Every call of a collaborator returns:
    a promise of theirs that rejects is outside the model. *)
Class Platform := {
  World : Type;
  (** [ApprovalResult] of agent/approval-execution *)
  ApprovalResult : Type;
  (** [JSON.parse]; [None] when it throws *)
  JSON_parse : string -> option json;
  (** whether [Array.prototype] of the runtime has an own property of
      that name; the names grow with the edition of ECMAScript *)
  arrayPrototypeHas : string -> bool;
  (** [getToolSchema] of tools/manager *)
  getToolSchema : string -> option ToolSchema;
  (** [checkToolPermission] of tools/manager *)
  checkToolPermission : string -> json -> World -> Permission * World;
  (** [executeApprovalBatch] of agent/approval-execution *)
  executeApprovalBatch : list Decision -> World -> list ApprovalResult * World;
  (** [client.agents.retrieve] followed by [getResumeData], projected
      on [pendingApprovals] *)
  getResumeData : World -> option (list Approval) * World;
  (** [sendMessageStream]; the stream it opens lives in the world *)
  sendMessageStream : list (Input ApprovalResult) -> World -> World;
  (** [drainStreamWithResume] into fresh buffers, then [toLines] *)
  drainStreamWithResume : World -> Drained * World;
  (** client creation, agent retrieval or creation, settings and skills
      update (lines 118 to 188) *)
  prepareAgent : World -> World
}.

(** An observable action of the handler on its collaborators. *)
Inductive Event (R : Type) :=
| EvRetrieve (pending : option (list Approval))
| EvCheckPermission (name : string) (args : json)
| EvExecute (decisions : list Decision) (results : list R)
| EvSend (input : list (Input R))
| EvDrain (result : Drained).
Arguments EvRetrieve {R} pending.
Arguments EvCheckPermission {R} name args.
Arguments EvExecute {R} decisions results.
Arguments EvSend {R} input.
Arguments EvDrain {R} result.

(** How a run of the handler ends: with an exit code; with an
    exception that leaves the handler uncaught (its promise rejects);
    or, in the model only, by running out of the fuel that bounds its
    loops. *)
Inductive Outcome := Exit (code : Z) | Thrown (error : JsError) | OutOfFuel.

(** ** Pure helpers *)

Definition nl : string := String "010" "".
Definition dquote : string := String "034" "".

(** JavaScript truthiness of a [string | null]. *)
Definition truthy (o : option string) : bool :=
  match o with
  | Some s => negb (bool_decide (s = ""))
  | None => false
  end.

(** [a || b] on [string | undefined]. *)
Definition js_or (a b : option string) : option string :=
  if truthy a then a else b.

(** How a template literal renders a [string | undefined]. *)
Definition template (o : option string) : string :=
  match o with Some s => s | None => "undefined" end.

(** [safeJsonParseOr(json, fallback)]: the value [JSON.parse] gives,
    whatever its type, or the fallback when it throws. *)
Definition safeJsonParseOr `{Platform} (raw : string) (fallback : json) : json :=
  match JSON_parse raw with
  | Some v => v
  | None => fallback
  end.

(** The empty object literal. *)
Definition emptyObject : json := JObj ∅.

(** The names of the properties of [Object.prototype], which every
    plain object and every array inherits. *)
Definition objectPrototypeKeys : list string :=
  ["constructor"; "hasOwnProperty"; "isPrototypeOf"; "propertyIsEnumerable";
   "toLocaleString"; "toString"; "valueOf"; "__proto__";
   "__defineGetter__"; "__defineSetter__"; "__lookupGetter__"; "__lookupSetter__"].

(** The names of the index properties of an array with that many
    items: the canonical decimal numerals below its length. *)
Definition indexKeys (n : nat) : list string :=
  map (fun i => JsString.of_Z (Z.of_nat i)) (seq 0 n).

(** The position an own index property names. *)
Definition indexOfKey (n : nat) (key : string) : option nat :=
  List.find (fun i => bool_decide (JsString.of_Z (Z.of_nat i) = key)) (seq 0 n).

(** Whether the property is found past the own properties of an array
    or a plain object, on the prototype chain. *)
Definition inherited `{Platform} (isArray : bool) (key : string) : bool :=
  (isArray && arrayPrototypeHas key) || bool_decide (key ∈ objectPrototypeKeys).

(** [key in v]: own properties first, then the prototype chain; a
    [TypeError] when [v] is not an object. *)
Definition hasProperty `{Platform} (key : string) (v : json) : Completion bool :=
  match v with
  | JObj fields =>
      Normal (bool_decide (is_Some (fields !! key)) || inherited false key)
  | JArr items =>
      Normal (bool_decide (is_Some (indexOfKey (length items) key))
              || bool_decide (key = "length") || inherited true key)
  | JNull | JBool _ | JNum _ | JStr _ => Throw TypeError
  end.

(** [v[key] == null], for an object or an array [v]: an own property
    is null when its value is; [length] and the inherited properties
    (functions, and the accessor [__proto__]) are not null; a property
    that is not found is [undefined]. *)
Definition propertyIsNullish `{Platform} (v : json) (key : string) : bool :=
  match v with
  | JObj fields =>
      match fields !! key with
      | Some JNull => true
      | Some _ => false
      | None => negb (inherited false key)
      end
  | JArr items =>
      match indexOfKey (length items) key with
      | Some i =>
          match items !! i with
          | Some JNull | None => true
          | Some _ => false
          end
      | None => negb (bool_decide (key = "length") || inherited true key)
      end
  | JNull | JBool _ | JNum _ | JStr _ => true
  end.

(** The predicate of [required.filter]:
    [!(key in parsedArgs) || parsedArgs[key] == null]. *)
Definition isMissing `{Platform} (parsedArgs : json) (key : string)
    : Completion bool :=
  match hasProperty key parsedArgs with
  | Normal found => Normal (negb found || propertyIsNullish parsedArgs key)
  | Throw e => Throw e
  end.

(** [l.filter(f)] for a predicate that may throw: the predicate is
    called on each element in order, and the first exception leaves the
    filter. *)
Fixpoint filterThrowing {A} (f : A -> Completion bool) (l : list A)
    : Completion (list A) :=
  match l with
  | [] => Normal []
  | x :: rest =>
      match f x with
      | Throw e => Throw e
      | Normal keep =>
          match filterThrowing f rest with
          | Throw e => Throw e
          | Normal kept => Normal (if keep then x :: kept else kept)
          end
      end
  end.

(** [(schema?.input_schema?.required) || []] *)
Definition requiredOf `{Platform} (name : string) : list string :=
  default [] (s ← getToolSchema name; i ← input_schema s; required i).

Definition iterInfo (state : RalphState) : string :=
  if 0 <? maxIterations state
  then JsString.of_Z (currentIteration state) +:+ "/" +:+ JsString.of_Z (maxIterations state)
  else JsString.of_Z (currentIteration state).

Definition promiseBlock (promise : string) : string :=
"
═══════════════════════════════════════════════════════════
RALPH LOOP COMPLETION PROMISE
═══════════════════════════════════════════════════════════

To complete this loop, output this EXACT text:
  <promise>" +:+ promise +:+ "</promise>

STRICT REQUIREMENTS (DO NOT VIOLATE):
  ✓ Use <promise> XML tags EXACTLY as shown above
  ✓ The statement MUST be completely and unequivocally TRUE
  ✓ Do NOT output false statements to exit the loop
  ✓ Do NOT lie even if you think you should exit

IMPORTANT - Do not circumvent the loop:
  Even if you believe you're stuck, the task is impossible,
  or you've been running too long - you MUST NOT output a
  false promise statement. The loop is designed to continue
  until the promise is GENUINELY TRUE. Trust the process.

  If the loop should stop, the promise statement will become
  true naturally. Do not force it by lying.
═══════════════════════════════════════════════════════════
".

Definition buildRalphFirstTurnReminder (state : RalphState) : string :=
  let reminder := "<system-reminder>
🔄 Ralph Wiggum mode activated (iteration " +:+ iterInfo state +:+ ")
" in
  let reminder :=
    if truthy (completionPromise state)
    then reminder +:+ promiseBlock (template (completionPromise state))
    else reminder +:+ "
No completion promise set - loop runs until --max-iterations or interrupted.
" in
  reminder +:+ "</system-reminder>".

Definition buildRalphContinuationReminder (state : RalphState) : string :=
  "<system-reminder>
🔄 Ralph Wiggum mode continuation (iteration " +:+ iterInfo state +:+ ")

The previous work is preserved in files and git history.
Continue where you left off, building on what you've already done.
</system-reminder>".

(** The predicate of [reversed.find]: an assistant line whose text is a
    string that is not white space only, [line.text.trim().length > 0]. *)
Definition isAssistantText (line : Line) : bool :=
  bool_decide (kind line = "assistant") &&
  match text line with
  | Some t => JsString.trimsToText t
  | None => false
  end.

(** [[...lines].reverse().find(...)] *)
Definition lastAssistant (ls : list Line) : option Line :=
  List.find isAssistantText (rev ls).

(** The message of the error branch (lines 355 to 363). *)
Definition errorMessage (ls : list Line) (stop : string) : string :=
  let errorLines := filter (fun line => kind line = "error") ls in
  let errorMessages :=
    filter (fun m => m <> "") (map (fun line => default "" (text line)) errorLines) in
  if (0 <? length errorMessages)%nat
  then JsString.join "; " errorMessages
  else "Unexpected stop reason: " +:+ stop.

Definition ralphDenyReason : string := "Tool requires approval (Ralph CLI mode)".

(** ** The handler, as a state-passing program *)

Section Handler.
Context `{P : Platform}.

(** What the handler acts on: the outside world, the process-wide
    singleton [ralphMode], what was written with [console.error], and
    a record of the calls made to the collaborators. *)
Record Env := mkEnv {
  world : World;
  ralph : RalphState;
  trace : list (Event ApprovalResult);
  stderr : list string
}.

Definition M (A : Type) : Type := Env -> A * Env.

Definition ret {A} (a : A) : M A := fun e => (a, e).

Definition bind {A B} (m : M A) (k : A -> M B) : M B :=
  fun e => let (a, e') := m e in k a e'.

Notation "x <- c1 ;; c2" := (bind c1 (fun x => c2))
  (at level 100, c1 at next level, right associativity).
Notation "c1 ;; c2" := (bind c1 (fun _ => c2))
  (at level 100, right associativity).

Definition emit (ev : Event ApprovalResult) : M unit :=
  fun e => (tt, mkEnv (world e) (ralph e) (trace e ++ [ev]) (stderr e)).

Definition console_error (s : string) : M unit :=
  fun e => (tt, mkEnv (world e) (ralph e) (trace e) (stderr e ++ [s])).

Definition call {A} (f : World -> A * World) : M A :=
  fun e => let (a, w) := f (world e) in
           (a, mkEnv w (ralph e) (trace e) (stderr e)).

(** [ralphMode.getState()] *)
Definition getState : M RalphState := fun e => (ralph e, e).

Definition onRalph (f : RalphState -> RalphState) : M unit :=
  fun e => (tt, mkEnv (world e) (f (ralph e)) (trace e) (stderr e)).

Definition retrievePending : M (option (list Approval)) :=
  r <- call getResumeData ;; emit (EvRetrieve r) ;; ret r.

Definition checkPermission (name : string) (args : json) : M Permission :=
  emit (EvCheckPermission name args) ;; call (checkToolPermission name args).

Definition execute (ds : list Decision) : M (list ApprovalResult) :=
  r <- call (executeApprovalBatch ds) ;; emit (EvExecute ds r) ;; ret r.

Definition send (input : list (Input ApprovalResult)) : M unit :=
  emit (EvSend input) ;; call (fun w => (tt, sendMessageStream input w)).

Definition drain : M Drained :=
  d <- call drainStreamWithResume ;; emit (EvDrain d) ;; ret d.

(** One round of the [for] loop over [approvals] (lines 292 to 335):
    the decision pushed for [currentApproval], or the exception that
    [key in parsedArgs] throws out of the round. *)
Definition decideApproval (currentApproval : Approval) : M (Completion Decision) :=
  let parsedArgs := safeJsonParseOr (toolArgs currentApproval) emptyObject in
  permission <- checkPermission (toolName currentApproval) parsedArgs ;;
  match decision permission with
  | deny | ask =>
      let denyReason :=
        match decision permission with
        | ask => ralphDenyReason
        | _ => "Permission denied: " +:+
               template (js_or (matchedRule permission) (reason permission))
        end in
      ret (Normal (Deny currentApproval denyReason))
  | allow =>
      let required := requiredOf (toolName currentApproval) in
      match filterThrowing (isMissing parsedArgs) required with
      | Throw e => ret (Throw e)
      | Normal missing =>
          if (0 <? length missing)%nat
          then ret (Normal (Deny currentApproval
                 ("Missing required parameter" +:+
                  (if (1 <? length missing)%nat then "s" else "") +:+ ": " +:+
                  JsString.join ", " missing)))
          else ret (Normal (Approve currentApproval))
      end
  end.

(** The [for] loop itself: [decisions] grows by one [push] a round; an
    exception leaves the loop. *)
Fixpoint decideApprovals (pending : list Approval)
    (decisions : list Decision) : M (Completion (list Decision)) :=
  match pending with
  | [] => ret (Normal decisions)
  | currentApproval :: rest =>
      r <- decideApproval currentApproval ;;
      match r with
      | Normal d => decideApprovals rest (decisions ++ [d])
      | Throw e => ret (Throw e)
      end
  end.

(** What one pass through the body of the main loop leads to. *)
Inductive Next :=
| Return (code : Z)
| Continue (nextInput : list (Input ApprovalResult))
| Raise (error : JsError).

(** The body of [while (ralphMode.shouldContinue())] (lines 233 to
    390). *)
Definition loopBody (prompt : string)
    (currentInput : list (Input ApprovalResult)) : M Next :=
  send currentInput ;;
  result <- drain ;;
  matched <-
    match lastAssistant (lines result) with
    | Some line =>
        st <- getState ;;
        ret (checkForPromise st (default "" (text line)))
    | None => ret false
    end ;;
  if matched : bool then
    console_error "" ;;
    console_error "✅ Completion promise matched - exiting successfully" ;;
    ret (Return 0)
  else if bool_decide (stopReason result = "requires_approval") then
    let pending := default [] (approvals result) in
    if (length pending =? 0)%nat then
      console_error "Unexpected empty approvals array" ;;
      ret (Return 2)
    else
      r <- decideApprovals pending [] ;;
      match r with
      | Throw e => ret (Raise e)
      | Normal decisions =>
          executedResults <- execute decisions ;;
          ret (Continue [ApprovalCreate executedResults])
      end
  else if negb (bool_decide (stopReason result = "end_turn")) then
    console_error "" ;;
    console_error ("❌ Error: " +:+ errorMessage (lines result) (stopReason result)) ;;
    ret (Return 2)
  else
    onRalph incrementIteration ;;
    newState <- getState ;;
    console_error "" ;;
    console_error ("🔄 Iteration " +:+ iterInfo newState +:+ "...") ;;
    ret (Continue
           [UserMessage (buildRalphContinuationReminder newState +:+ nl +:+ nl +:+ prompt)]).

(** The main loop (lines 232 to 396). [fuel] bounds the number of
    turns the model follows; the program itself has no such bound. *)
Fixpoint mainLoop (fuel : nat) (prompt : string) (maxIter : Z)
    (currentInput : list (Input ApprovalResult)) : M Outcome :=
  st <- getState ;;
  if shouldContinue st then
    match fuel with
    | O => ret OutOfFuel
    | S fuel' =>
        next <- loopBody prompt currentInput ;;
        match next with
        | Return code => ret (Exit code)
        | Continue nextInput => mainLoop fuel' prompt maxIter nextInput
        | Raise e => ret (Thrown e)
        end
    end
  else
    console_error "" ;;
    console_error ("⚠️  Max iterations (" +:+ JsString.of_Z maxIter +:+ ") reached") ;;
    ret (Exit 1).

(** The loop that clears pending approvals (lines 192 to 218); [true]
    when it left through [break]. [fuel] bounds the retrievals the
    model follows. *)
Fixpoint clearPendingApprovals (fuel : nat) : M bool :=
  match fuel with
  | O => ret false
  | S fuel' =>
      resume <- retrievePending ;;
      let pendingApprovals := default [] resume in
      if (length pendingApprovals =? 0)%nat then ret true
      else
        let decisions :=
          map (fun approval => Deny approval ralphDenyReason) pendingApprovals in
        executedResults <- execute decisions ;;
        send [ApprovalCreate executedResults] ;;
        drain ;;
        clearPendingApprovals fuel'
  end.

(** The first message of the main loop (lines 221 to 230). *)
Definition initialInput (ralphState : RalphState) (prompt : string)
    : list (Input ApprovalResult) :=
  [UserMessage (buildRalphFirstTurnReminder ralphState +:+ nl +:+ nl +:+ prompt)].

(** [handleRalphCommand(prompt, completionPromise, maxIterations,
    isYolo)]. *)
Definition handleRalphCommand (fuel : nat) (prompt : string)
    (completionPromise : PromiseArg) (maxIter : Z) (yolo : bool) : M Outcome :=
  onRalph (activate prompt completionPromise maxIter yolo) ;;
  ralphState <- getState ;;
  console_error ("🔄 " +:+ (if yolo then "yolo-ralph" else "ralph") +:+
                 " mode started (iter 1/" +:+
                 (if maxIter =? 0 then "∞" else JsString.of_Z maxIter) +:+ ")") ;;
  console_error ("Promise: " +:+
    (if truthy (RalphMode.completionPromise ralphState)
     then let p := template (RalphMode.completionPromise ralphState) in
          dquote +:+ String.substring 0 50 p +:+
          (if (50 <? String.length p)%nat then "..." else "") +:+ dquote
     else "(none)")) ;;
  console_error "" ;;
  call (fun w => (tt, prepareAgent w)) ;;
  cleared <- clearPendingApprovals fuel ;;
  if cleared : bool
  then mainLoop fuel prompt maxIter (initialInput ralphState prompt)
  else ret OutOfFuel.

End Handler.

End RalphCli.

(* ===================================================================== *)
(** * The design document's reading of the handler's steps *)
(* ===================================================================== *)

Module RalphSpec.
Import RalphMode RalphCli.

(** Whether the turn that drained to [d] declares the promise kept:
    step b of the transition algorithm, on the last assistant line the
    handler selects. *)
Definition completionMatched (st : RalphState) (d : Drained) : bool :=
  match lastAssistant (lines d) with
  | Some line => checkForPromise st (default "" (text line))
  | None => false
  end.


(** The values [key in v] accepts on its right: arrays and objects. *)
Definition isObject (v : json) : bool :=
  match v with
  | JObj _ | JArr _ => true
  | JNull | JBool _ | JNum _ | JStr _ => false
  end.

Section WithPlatform.
Context `{P : Platform}.

(** The decision for one approval, given the answer of the permission
    check: steps 3 to 6 of the arbitration algorithm, with the reason
    for missing arguments spelled as the handler spells it ("parameter"
    for one key, "parameters" for several), and with the exception the
    handler lets through when the arguments of an allowed tool with
    required keys are not an object. *)
Definition arbitrate (perm : Permission) (parsedArgs : json)
    (required : list string) (a : Approval) : Completion Decision :=
  match decision perm with
  | deny =>
      Normal (Deny a ("Permission denied: " +:+
                      template (js_or (matchedRule perm) (reason perm))))
  | ask => Normal (Deny a "Tool requires approval (Ralph CLI mode)")
  | allow =>
      match filterThrowing (isMissing parsedArgs) required with
      | Throw e => Throw e
      | Normal [] => Normal (Approve a)
      | Normal [key] => Normal (Deny a ("Missing required parameter: " +:+ key))
      | Normal missing =>
          Normal (Deny a ("Missing required parameters: " +:+ JsString.join ", " missing))
      end
  end.

(** Step 1: the parsed arguments, the empty object when parsing
    fails. *)
Definition parsedArgsOf (a : Approval) : json :=
  match JSON_parse (toolArgs a) with
  | Some args => args
  | None => emptyObject
  end.

(** Arbitration of a batch in input order, the permission subsystem
    consulted once for each approval reached, in that order: the
    decisions, one an approval, or the exception that ended the
    arbitration; the approvals whose permission was checked; and the
    world the checks leave. *)
Fixpoint arbitrateBatch (pending : list Approval) (w : World)
    : Completion (list Decision) * list Approval * World :=
  match pending with
  | [] => (Normal [], [], w)
  | a :: rest =>
      let (perm, w1) := checkToolPermission (toolName a) (parsedArgsOf a) w in
      match arbitrate perm (parsedArgsOf a) (requiredOf (toolName a)) a with
      | Throw e => (Throw e, [a], w1)
      | Normal d =>
          let '(r, checked, w2) := arbitrateBatch rest w1 in
          (match r with
           | Normal ds => Normal (d :: ds)
           | Throw e => Throw e
           end, a :: checked, w2)
      end
  end.

(** The permission checks a batch causes, in order. *)
Definition checkEvents (pending : list Approval) : list (Event ApprovalResult) :=
  map (fun a => EvCheckPermission (toolName a) (parsedArgsOf a)) pending.

(** [Performs w events w']: the calls of [events], made on the
    collaborators one after the other from the world [w], return what
    the events record and leave the world [w']. *)
Inductive Performs : World -> list (Event ApprovalResult) -> World -> Prop :=
| performs_nil w : Performs w [] w
| performs_retrieve w res w1 rest w' :
    getResumeData w = (res, w1) -> Performs w1 rest w' ->
    Performs w (EvRetrieve res :: rest) w'
| performs_check w name args perm w1 rest w' :
    checkToolPermission name args w = (perm, w1) -> Performs w1 rest w' ->
    Performs w (EvCheckPermission name args :: rest) w'
| performs_execute w ds results w1 rest w' :
    executeApprovalBatch ds w = (results, w1) -> Performs w1 rest w' ->
    Performs w (EvExecute ds results :: rest) w'
| performs_send w input rest w' :
    Performs (sendMessageStream input w) rest w' ->
    Performs w (EvSend input :: rest) w'
| performs_drain w d w1 rest w' :
    drainStreamWithResume w = (d, w1) -> Performs w1 rest w' ->
    Performs w (EvDrain d :: rest) w'.

(** One round of clearing: pending approvals were reported, every one
    of them was denied with the fixed reason, the batch of denials was
    executed, and its results were sent back and the answer drained. *)
Inductive DenialRound : list (Event ApprovalResult) -> Prop :=
| denial_round r pending results d :
    default [] r = pending -> pending <> [] ->
    DenialRound
      [EvRetrieve r;
       EvExecute (map (fun a => Deny a "Tool requires approval (Ralph CLI mode)") pending)
         results;
       EvSend [ApprovalCreate results];
       EvDrain d].

(** A sequence of such rounds. *)
Inductive ClearingTrace : list (Event ApprovalResult) -> Prop :=
| clearing_nil : ClearingTrace []
| clearing_cons round rest :
    DenialRound round -> ClearingTrace rest -> ClearingTrace (round ++ rest).

End WithPlatform.

(** A line the selection passes over: a line of another kind, a line
    without a text string, or a line whose text holds nothing but white
    space of ECMAScript. *)
Definition PassedOver (line : Line) : Prop :=
  kind line <> "assistant" \/
  match text line with
  | Some t => Forall (fun c => JsString.isWhiteSpace c = true) (JsString.codePoints t)
  | None => True
  end.

(** The last assistant line whose text is not the empty string: the
    selection as the claim words it ("non-empty"), for comparison. *)
Definition lastNonEmptyAssistant (ls : list Line) : option Line :=
  List.find
    (fun line =>
       bool_decide (kind line = "assistant") &&
       match text line with
       | Some t => negb (bool_decide (t = ""))
       | None => false
       end)
    (rev ls).

End RalphSpec.

(* ===================================================================== *)
(** * A scripted platform, to run the handler on concrete inputs *)
(* ===================================================================== *)

Module Scripted.
Import RalphMode RalphCli.

(** The world of a scripted run: the results the coming turns will
    drain to, and what the coming retrievals of pending approvals will
    report. *)
Record Script := mkScript {
  turns : list Drained;
  pendingQueue : list (option (list Approval))
}.

Definition lookupBy {A} (key : string) (table : list (string * A)) : option A :=
  snd <$> List.find (fun p => bool_decide (fst p = key)) table.

(** A platform that parses by table, whose arrays inherit the names of
    [arrayProto], that knows the required arguments of the tools in
    [schemas], answers permission checks by [policy], executes a batch
    by handing the decisions back, and follows its script; a turn past
    the end of the script drains to [fallback]. *)
Definition platform (parse : list (string * json)) (arrayProto : list string)
    (schemas : list (string * list string))
    (policy : string -> Permission) (fallback : Drained) : Platform :=
  {| World := Script;
     ApprovalResult := Decision;
     JSON_parse := fun raw => lookupBy raw parse;
     arrayPrototypeHas := fun key => bool_decide (key ∈ arrayProto);
     getToolSchema := fun name =>
       (fun req => mkToolSchema (Some (mkInputSchema (Some req)))) <$> lookupBy name schemas;
     checkToolPermission := fun name _ w => (policy name, w);
     executeApprovalBatch := fun ds w => (ds, w);
     getResumeData := fun w =>
       match pendingQueue w with
       | [] => (None, w)
       | p :: q => (p, mkScript (turns w) q)
       end;
     sendMessageStream := fun _ w => w;
     drainStreamWithResume := fun w =>
       match turns w with
       | [] => (fallback, w)
       | d :: t => (d, mkScript t (pendingQueue w))
       end;
     prepareAgent := fun w => w |}.

Definition assistant (t : string) : Line := mkLine "assistant" (Some t).

Definition endTurn (t : string) : Drained :=
  mkDrained [assistant t] "end_turn" None.

Definition needsApproval (t : string) (pending : list Approval) : Drained :=
  mkDrained [assistant t] "requires_approval" (Some pending).

Definition failed : Drained :=
  mkDrained [mkLine "error" (Some "stream failed")] "error" None.

Definition allowAll (_ : string) : Permission := mkPermission allow None None.

(** The platform of the examples: "{}" parses to the empty object,
    "null" to null, "[null]" to an array holding null, and nothing else
    parses; arrays inherit [push] and [join]; [write_file] requires
    [path] and [content], [read_file] requires [path], [inspect]
    requires [toString], [first] requires the property named 0 and
    [count] requires [length]; every tool is allowed. *)
Definition demo : Platform :=
  platform [("{}", emptyObject); ("null", JNull); ("[null]", JArr [JNull])]
    ["push"; "join"]
    [("write_file", ["path"; "content"]); ("read_file", ["path"]);
     ("inspect", ["toString"]); ("first", ["0"]); ("count", ["length"])]
    allowAll failed.

Definition start (turns : list Drained) (pending : list (option (list Approval)))
    : @Env demo :=
  @mkEnv demo (mkScript turns pending) defaultState [] [].

(** The inputs of the examples. *)

Definition activated (p : PromiseArg) (cap : Z) : RalphState :=
  activate "task" p cap false defaultState.

Definition running (p : PromiseArg) (cap : Z) (script : list Drained) : @Env demo :=
  @mkEnv demo (mkScript script []) (activated p cap) [] [].

Definition firstInput (p : PromiseArg) (cap : Z) : list (Input Decision) :=
  @initialInput demo (activated p cap) "task".

Definition writeFile : Approval := mkApproval "call-1" "write_file" "{}".
Definition readFile : Approval := mkApproval "call-2" "read_file" "{}".
Definition bash : Approval := mkApproval "call-0" "bash" "{}".
Definition readFileNull : Approval := mkApproval "call-3" "read_file" "null".

Definition writeFileDenied : Decision :=
  Deny writeFile "Missing required parameters: path, content".

Definition clearingRound : list (Event Decision) :=
  [EvRetrieve (Some [bash]);
   EvExecute [Deny bash "Tool requires approval (Ralph CLI mode)"]
     [Deny bash "Tool requires approval (Ralph CLI mode)"];
   EvSend [ApprovalCreate [Deny bash "Tool requires approval (Ralph CLI mode)"]];
   EvDrain (endTurn "denied")].

End Scripted.

(* ===================================================================== *)
(** * Vocabulary for the properties of whole runs *)
(* ===================================================================== *)

Module RalphProtocol.
Import JsString RalphMode RalphCli RalphSpec.

(** [mismatch_within pat s]: comparing [pat] with the start of [s] meets
    a differing character before [s] ends. *)
Fixpoint mismatch_within (pat s : string) : bool :=
  match pat, s with
  | String p pat', String a s' => if ci_eqb p a then mismatch_within pat' s' else true
  | _, _ => false
  end.

(** [free_of pat s]: at every position of [s], [pat] fails to match on a
    character of [s] itself, so that no occurrence of [pat] starts inside
    [s], whatever follows [s]. *)
Fixpoint free_of (pat s : string) : bool :=
  match s with
  | "" => true
  | String _ r => mismatch_within pat s && free_of pat r
  end.

(** [lacks p s]: no character of [s] equals [p] up to case. *)
Fixpoint lacks (p : ascii) (s : string) : bool :=
  match s with
  | "" => true
  | String a r => negb (ci_eqb p a) && lacks p r
  end.

(** The first-turn reminder up to the promise tags, when a promise is
    set (lines 31 to 42). *)
Definition reminderLead (state : RalphState) : string :=
  "<system-reminder>
🔄 Ralph Wiggum mode activated (iteration " +:+ iterInfo state +:+ ")

═══════════════════════════════════════════════════════════
RALPH LOOP COMPLETION PROMISE
═══════════════════════════════════════════════════════════

To complete this loop, output this EXACT text:
  ".

(** The first-turn reminder after the promise tags (lines 42 to 66). *)
Definition reminderTrail : string :=
"

STRICT REQUIREMENTS (DO NOT VIOLATE):
  ✓ Use <promise> XML tags EXACTLY as shown above
  ✓ The statement MUST be completely and unequivocally TRUE
  ✓ Do NOT output false statements to exit the loop
  ✓ Do NOT lie even if you think you should exit

IMPORTANT - Do not circumvent the loop:
  Even if you believe you're stuck, the task is impossible,
  or you've been running too long - you MUST NOT output a
  false promise statement. The loop is designed to continue
  until the promise is GENUINELY TRUE. Trust the process.

  If the loop should stop, the promise statement will become
  true naturally. Do not force it by lying.
═══════════════════════════════════════════════════════════
</system-reminder>".

(** The texts the error branch joins: the non-empty texts of the error
    lines, in order (lines 355 to 358). *)
Definition errorTexts (ls : list Line) : list string :=
  filter (fun m => m <> "")
    (map (fun line => default "" (text line))
       (filter (fun line => kind line = "error") ls)).

Section WithPlatform.
Context `{P : Platform}.

(** A drained turn that makes the loop advance: it stopped with
    [end_turn] and its text did not match the promise. *)
Definition advancing (st : RalphState) (ev : Event ApprovalResult) : bool :=
  match ev with
  | EvDrain d =>
      bool_decide (stopReason d = "end_turn") && negb (completionMatched st d)
  | _ => false
  end.

(** [Provides v key]: the object or array [v] has the property [key],
    its own or inherited, and the value of the property is not null. *)
Inductive Provides : json -> string -> Prop :=
| provides_own fields key x :
    fields !! key = Some x -> x <> JNull -> Provides (JObj fields) key
| provides_inherited fields key :
    fields !! key = None -> key ∈ objectPrototypeKeys ->
    Provides (JObj fields) key
| provides_item items i x :
    items !! i = Some x -> x <> JNull ->
    Provides (JArr items) (JsString.of_Z (Z.of_nat i))
| provides_length items : Provides (JArr items) "length"
| provides_array_inherited items key :
    key ∉ indexKeys (length items) ->
    arrayPrototypeHas key = true \/ key ∈ objectPrototypeKeys ->
    Provides (JArr items) key.

(** What the main loop may do with its collaborators, given the input
    of its next turn: nothing more; one last turn; a turn that stopped
    with [end_turn], followed by a user message; a turn that asked for
    approvals, followed by one permission check for each pending approval
    in order, the execution of one decision for each, and an approval
    message carrying the results of that execution; or a turn that asked
    for approvals, followed by the permission checks of the first of
    them, no execution and nothing more, the arbitration having thrown at
    the last approval checked, a tool with required keys whose arguments
    are not an object. *)
Inductive MainTrace :
    list (Input ApprovalResult) -> list (Event ApprovalResult) -> Prop :=
| main_stop input : MainTrace input []
| main_last input d : MainTrace input [EvSend input; EvDrain d]
| main_raise input d before a after :
    stopReason d = "requires_approval" ->
    default [] (approvals d) = before ++ a :: after ->
    requiredOf (toolName a) <> [] -> isObject (parsedArgsOf a) = false ->
    MainTrace input (EvSend input :: EvDrain d :: checkEvents (before ++ [a]))
| main_user input d msg rest :
    stopReason d = "end_turn" ->
    MainTrace [UserMessage msg] rest ->
    MainTrace input (EvSend input :: EvDrain d :: rest)
| main_approval input d ds results rest :
    stopReason d = "requires_approval" ->
    default [] (approvals d) <> [] ->
    map decisionApproval ds = default [] (approvals d) ->
    MainTrace [ApprovalCreate results] rest ->
    MainTrace input
      (EvSend input :: EvDrain d ::
       checkEvents (default [] (approvals d)) ++ EvExecute ds results :: rest).

End WithPlatform.

End RalphProtocol.

(* ===================================================================== *)
(** * Facts about the string helpers *)
(* ===================================================================== *)

Module JsStringFacts.
Import JsString.

Lemma app_cons a s t : String a s +:+ t = String a (s +:+ t).
Proof. reflexivity. Qed.

Lemma app_empty_l s : "" +:+ s = s.
Proof. reflexivity. Qed.

Lemma app_empty_r s : s +:+ "" = s.
Proof. induction s as [|a s IH]; [reflexivity|]. rewrite app_cons, IH. reflexivity. Qed.

Lemma app_assoc s t u : (s +:+ t) +:+ u = s +:+ (t +:+ u).
Proof.
  induction s as [|a s IH]; [reflexivity|].
  rewrite !app_cons, IH. reflexivity.
Qed.

(** ** Trimming *)

Lemma trimEnd_empty_iff s : trimEnd s = "" <-> blank s = true.
Proof.
  induction s as [|a s IH]; simpl; [tauto|].
  destruct (trimEnd s) eqn:E.
  - destruct (is_space a); simpl.
    + tauto.
    + split; discriminate.
  - split; [discriminate|].
    intros [_ Hs]%andb_true_iff. apply IH in Hs. discriminate.
Qed.

Lemma blank_trimStart s : blank (trimStart s) = blank s.
Proof.
  induction s as [|a s IH]; simpl; [reflexivity|].
  destruct (is_space a) eqn:Ha; simpl; [exact IH|]. rewrite Ha. reflexivity.
Qed.

Lemma trim_empty_iff s : trim s = "" <-> blank s = true.
Proof. unfold trim. rewrite trimEnd_empty_iff, blank_trimStart. tauto. Qed.

Lemma trimEnd_cons a s t :
  trimEnd s = trimEnd t -> trimEnd (String a s) = trimEnd (String a t).
Proof. simpl. intros ->. reflexivity. Qed.

(** ** Collapsing runs of white space *)

Lemma collapse_space_cons a s :
  is_space a = true ->
  collapse (String a s) = if starts_space s then collapse s else String " " (collapse s).
Proof.
  intros Ha. simpl. rewrite Ha. destruct s as [|b s]; reflexivity.
Qed.

Lemma collapse_other_cons a s :
  is_space a = false -> collapse (String a s) = String a (collapse s).
Proof. intros Ha. simpl. rewrite Ha. reflexivity. Qed.

Lemma blank_collapse s : blank (collapse s) = blank s.
Proof.
  induction s as [|a s IH]; [reflexivity|].
  destruct (is_space a) eqn:Ha.
  - rewrite collapse_space_cons by assumption. simpl blank at 2. rewrite Ha. simpl.
    destruct (starts_space s); [exact IH|]. simpl. exact IH.
  - rewrite collapse_other_cons by assumption. simpl. rewrite Ha. reflexivity.
Qed.

(** A non-empty run of white space in front collapses like one space. *)
Lemma collapse_run_front w s :
  blank w = true -> w <> "" -> collapse (w +:+ s) = collapse (String " " s).
Proof.
  induction w as [|a w IH]; [congruence|].
  simpl blank. intros [Ha Hw]%andb_true_iff _. rewrite app_cons.
  rewrite !collapse_space_cons by (assumption || reflexivity).
  destruct w as [|b w].
  - reflexivity.
  - assert (Hb : is_space b = true) by (simpl in Hw; apply andb_true_iff in Hw; tauto).
    rewrite app_cons. simpl starts_space at 1. rewrite Hb.
    rewrite <- app_cons, IH by (auto || discriminate).
    rewrite collapse_space_cons by reflexivity. reflexivity.
Qed.

Lemma starts_space_app a x y :
  starts_space x = starts_space y -> starts_space (a +:+ x) = starts_space (a +:+ y).
Proof. destruct a; auto. Qed.

(** Collapsing is a congruence for what follows, as long as both
    continuations start alike. *)
Lemma collapse_app_congr a x y :
  collapse x = collapse y -> starts_space x = starts_space y ->
  collapse (a +:+ x) = collapse (a +:+ y).
Proof.
  intros Hc Hs. induction a as [|c a IH]; [exact Hc|].
  rewrite !app_cons. destruct (is_space c) eqn:Hcsp.
  - rewrite !collapse_space_cons by assumption.
    rewrite (starts_space_app a x y Hs), IH. reflexivity.
  - rewrite !collapse_other_cons by assumption. rewrite IH. reflexivity.
Qed.

Lemma starts_space_blank w s : blank w = true -> w <> "" -> starts_space (w +:+ s) = true.
Proof.
  destruct w as [|a w]; [congruence|]. simpl.
  intros [Ha _]%andb_true_iff _. exact Ha.
Qed.

(** Any non-empty run of white space inside a string can be replaced
    by any other without changing the collapsed string. *)
Lemma collapse_run_inside a w1 w2 b :
  blank w1 = true -> w1 <> "" -> blank w2 = true -> w2 <> "" ->
  collapse (a +:+ w1 +:+ b) = collapse (a +:+ w2 +:+ b).
Proof.
  intros H1 N1 H2 N2. apply collapse_app_congr.
  - rewrite !collapse_run_front by assumption. reflexivity.
  - rewrite !starts_space_blank by assumption. reflexivity.
Qed.

(** White space at the end is invisible after collapsing and trimming
    the end. *)
Lemma trimEnd_collapse_trailing_space s :
  trimEnd (collapse (s +:+ " ")) = trimEnd (collapse s).
Proof.
  induction s as [|a s IH]; [reflexivity|].
  rewrite app_cons. destruct (is_space a) eqn:Ha.
  - rewrite !collapse_space_cons by assumption.
    destruct s as [|b s]; [reflexivity|].
    rewrite app_cons in *. simpl starts_space.
    destruct (is_space b); [exact IH|]. apply trimEnd_cons, IH.
  - rewrite !collapse_other_cons by assumption. apply trimEnd_cons, IH.
Qed.

Lemma trimStart_collapse_nonspace a s :
  is_space a = false -> trimStart (collapse (String a s)) = collapse (String a s).
Proof. intros Ha. rewrite collapse_other_cons by assumption. simpl. rewrite Ha. reflexivity. Qed.

Lemma trim_collapse_leading_space a s :
  is_space a = true -> trim (collapse (String a s)) = trim (collapse s).
Proof.
  intros Ha. rewrite collapse_space_cons by assumption.
  destruct (starts_space s); [reflexivity|]. reflexivity.
Qed.

Lemma trim_collapse_trailing_space s :
  trim (collapse (s +:+ " ")) = trim (collapse s).
Proof.
  induction s as [|a s IH]; [reflexivity|].
  destruct (is_space a) eqn:Ha.
  - rewrite app_cons. rewrite !trim_collapse_leading_space by assumption. exact IH.
  - unfold trim. rewrite app_cons, !trimStart_collapse_nonspace by assumption.
    rewrite <- app_cons. apply trimEnd_collapse_trailing_space.
Qed.

Lemma trim_collapse_leading w s :
  blank w = true -> trim (collapse (w +:+ s)) = trim (collapse s).
Proof.
  induction w as [|a w IH]; [reflexivity|]. simpl blank.
  intros [Ha Hw]%andb_true_iff. rewrite app_cons.
  rewrite trim_collapse_leading_space by assumption. auto.
Qed.

Lemma trim_collapse_trailing w s :
  blank w = true -> trim (collapse (s +:+ w)) = trim (collapse s).
Proof.
  intros Hw. destruct w as [|a w]; [rewrite app_empty_r; reflexivity|].
  transitivity (trim (collapse (s +:+ " "))); [|apply trim_collapse_trailing_space].
  f_equal.
  rewrite <- (app_empty_r (String a w)), <- (app_empty_r " ").
  apply collapse_run_inside; (assumption || discriminate || reflexivity).
Qed.

(** ** Searching up to case *)

Lemma split_at_ci_unfold pat s :
  split_at_ci pat s =
    match strip_prefix_ci pat s with
    | Some rest => Some ("", rest)
    | None =>
        match s with
        | "" => None
        | String a r =>
            match split_at_ci pat r with
            | Some (before, after) => Some (String a before, after)
            | None => None
            end
        end
    end.
Proof. destruct s; reflexivity. Qed.

Lemma strip_prefix_ci_equal pat o rest :
  ci_equal pat o = true -> strip_prefix_ci pat (o +:+ rest) = Some rest.
Proof.
  revert o. induction pat as [|p pat IH]; intros [|x o]; simpl; try discriminate.
  - reflexivity.
  - intros [Hx Ho]%andb_true_iff. rewrite Hx. auto.
Qed.

Lemma split_at_ci_here pat o rest :
  ci_equal pat o = true -> split_at_ci pat (o +:+ rest) = Some ("", rest).
Proof.
  intros H. rewrite split_at_ci_unfold, strip_prefix_ci_equal by assumption. reflexivity.
Qed.

Lemma split_at_ci_None_cons pat a s :
  split_at_ci pat (String a s) = None ->
  strip_prefix_ci pat (String a s) = None /\ split_at_ci pat s = None.
Proof.
  rewrite split_at_ci_unfold.
  destruct (strip_prefix_ci pat (String a s)); [discriminate|].
  destruct (split_at_ci pat s) as [[? ?]|]; [discriminate|]. auto.
Qed.

Lemma ci_eqb_true_lower a b : ci_eqb a b = true -> lower a = lower b.
Proof. unfold ci_eqb. apply Ascii.eqb_eq. Qed.

Lemma avoids_ci x y pat : ci_eqb x y = true -> avoids x pat = avoids y pat.
Proof.
  intros H%ci_eqb_true_lower. induction pat as [|p pat IH]; [reflexivity|].
  simpl. unfold ci_eqb. rewrite H, IH. reflexivity.
Qed.

(** A pattern that avoids [x] cannot be completed across an [x]. *)
Lemma strip_prefix_ci_blocked pat c x rest :
  avoids x pat = true -> strip_prefix_ci pat c = None ->
  strip_prefix_ci pat (c +:+ String x rest) = None.
Proof.
  revert c. induction pat as [|p pat IH]; intros c Hav Hc; [discriminate|].
  simpl in Hav. apply andb_true_iff in Hav as [Hp Hav].
  destruct c as [|a c]; simpl in *.
  - apply negb_true_iff in Hp. rewrite Hp. reflexivity.
  - destruct (ci_eqb p a); [auto|reflexivity].
Qed.

(** When the first character of a pattern does not occur again in it,
    an occurrence of the pattern cannot start inside [c] and end inside
    a copy of the pattern put after [c]. *)
Lemma strip_prefix_ci_no_straddle p pat c o rest :
  avoids p pat = true -> ci_equal (String p pat) o = true ->
  c <> "" -> strip_prefix_ci (String p pat) c = None ->
  strip_prefix_ci (String p pat) (c +:+ o +:+ rest) = None.
Proof.
  intros Hav Ho Hne Hc.
  destruct c as [|a c]; [congruence|].
  destruct o as [|x o]; [discriminate|].
  simpl in Ho. apply andb_true_iff in Ho as [Hx _].
  simpl in *. destruct (ci_eqb p a); [|reflexivity].
  apply strip_prefix_ci_blocked; [|assumption].
  rewrite <- (avoids_ci p x) by assumption. assumption.
Qed.

(** The first occurrence of such a pattern in [content] followed by a
    copy of the pattern, when [content] holds none, is that copy. *)
Lemma split_at_ci_after_content p pat content o rest :
  avoids p pat = true -> ci_equal (String p pat) o = true ->
  split_at_ci (String p pat) content = None ->
  split_at_ci (String p pat) (content +:+ o +:+ rest) = Some (content, rest).
Proof.
  intros Hav Ho. induction content as [|a content IH]; intros Hnone.
  - rewrite app_empty_l. apply split_at_ci_here. assumption.
  - apply split_at_ci_None_cons in Hnone as [Hhere Hlater].
    rewrite split_at_ci_unfold.
    rewrite (strip_prefix_ci_no_straddle p pat (String a content) o rest)
      by (assumption || discriminate).
    rewrite app_cons, (IH Hlater). reflexivity.
Qed.

(** ** Decimal rendering *)

Lemma of_Z_read z :
  Z.of_int <$> NilZero.int_of_string (of_Z z) = Some z.
Proof.
  unfold of_Z. pose proof (DecimalZ.of_to z) as Hz.
  destruct (Z.to_int z) as [[| | | | | | | | | |]|[| | | | | | | | | |]] eqn:E;
    try (rewrite NilZero.isi by discriminate; simpl; f_equal; exact Hz).
  - rewrite NilZero.isi_posnil. simpl. f_equal. exact Hz.
  - rewrite NilZero.isi_negnil. simpl. f_equal. exact Hz.
Qed.

Lemma of_Z_inj a b : of_Z a = of_Z b -> a = b.
Proof.
  intros H. pose proof (of_Z_read a) as Ha. rewrite H, of_Z_read in Ha.
  congruence.
Qed.

Lemma numeral_uint (d : Decimal.uint) : numeral (NilEmpty.string_of_uint d) = true.
Proof. induction d; simpl; try reflexivity; exact IHd. Qed.

Lemma numeral_of_Z z : numeral (of_Z z) = true.
Proof.
  unfold of_Z, NilZero.string_of_int, NilZero.string_of_uint.
  destruct (Z.to_int z) as [d|d]; destruct d; try reflexivity;
    first [ apply (numeral_uint (Decimal.D0 d)) | apply (numeral_uint (Decimal.D1 d))
          | apply (numeral_uint (Decimal.D2 d)) | apply (numeral_uint (Decimal.D3 d))
          | apply (numeral_uint (Decimal.D4 d)) | apply (numeral_uint (Decimal.D5 d))
          | apply (numeral_uint (Decimal.D6 d)) | apply (numeral_uint (Decimal.D7 d))
          | apply (numeral_uint (Decimal.D8 d)) | apply (numeral_uint (Decimal.D9 d)) ].
Qed.

Lemma of_Z_not_length z : of_Z z <> "length".
Proof.
  intros H. pose proof (numeral_of_Z z) as Hn. rewrite H in Hn. discriminate.
Qed.

End JsStringFacts.

(* ===================================================================== *)
(** * Properties of the loop state manager *)
(* ===================================================================== *)

Module RalphModeFacts.
Import JsString JsStringFacts RalphMode.

Lemma closeTag_shape : closeTag = String "<" "/promise>" /\ avoids "<" "/promise>" = true.
Proof. split; reflexivity. Qed.

(** The content of a tagged text: whatever the case of the tag names and
    whatever follows the closing tag, as long as the content itself holds
    no closing tag. *)
Lemma extractPromise_tagged o c content rest :
  ci_equal openTag o = true -> ci_equal closeTag c = true ->
  split_at_ci closeTag content = None ->
  extractPromise (o +:+ content +:+ c +:+ rest) = Some content.
Proof.
  intros Ho Hc Hnone. unfold extractPromise.
  rewrite split_at_ci_here by assumption.
  destruct closeTag_shape as [E Hav]. rewrite E in *.
  rewrite (split_at_ci_after_content _ _ content c rest) by assumption.
  reflexivity.
Qed.

Lemma normalize_pad pre s post :
  blank pre = true -> blank post = true ->
  normalize (pre +:+ s +:+ post) = normalize s.
Proof.
  intros Hpre Hpost. unfold normalize.
  rewrite trim_collapse_leading by assumption.
  apply trim_collapse_trailing. assumption.
Qed.

Lemma normalize_widen a w1 w2 b :
  blank w1 = true -> w1 <> "" -> blank w2 = true -> w2 <> "" ->
  normalize (a +:+ w1 +:+ b) = normalize (a +:+ w2 +:+ b).
Proof.
  intros. unfold normalize. f_equal. apply collapse_run_inside; assumption.
Qed.

Lemma normalize_empty_iff s : normalize s = "" <-> blank s = true.
Proof. unfold normalize. rewrite trim_empty_iff, blank_collapse. tauto. Qed.

Lemma shouldContinue_spec st :
  shouldContinue st = true <->
  isActive st = true /\ (maxIterations st <= 0 \/ currentIteration st < maxIterations st).
Proof.
  unfold shouldContinue. destruct (isActive st); simpl.
  - destruct (0 <? maxIterations st) eqn:E1;
      destruct (maxIterations st <=? currentIteration st) eqn:E2; simpl;
      split; intros; try split; try discriminate; try reflexivity; lia.
  - split; [discriminate|]. intros [? _]. discriminate.
Qed.

Lemma iter_increment_fields n st :
  let st' := Nat.iter n incrementIteration st in
  isActive st' = isActive st /\ isYolo st' = isYolo st /\
  originalPrompt st' = originalPrompt st /\
  completionPromise st' = completionPromise st /\
  maxIterations st' = maxIterations st /\
  currentIteration st' = currentIteration st + Z.of_nat n.
Proof.
  induction n as [|n IH]; simpl.
  - repeat split; lia.
  - destruct IH as (? & ? & ? & ? & ? & ?). repeat split; try assumption. lia.
Qed.

Lemma blank_trimEnd s : blank (trimEnd s) = blank s.
Proof.
  induction s as [|a s IH]; [reflexivity|]. simpl.
  destruct (trimEnd s) eqn:E.
  - apply trimEnd_empty_iff in E. rewrite E, andb_true_r.
    destruct (is_space a) eqn:Ha; simpl; [reflexivity|]. rewrite Ha. reflexivity.
  - simpl in *. rewrite <- IH. reflexivity.
Qed.

Lemma blank_normalize s : blank (normalize s) = blank s.
Proof.
  unfold normalize, trim. rewrite blank_trimEnd, blank_trimStart. apply blank_collapse.
Qed.

(** C3: [shouldContinue] holds exactly when the state is active and the
    cap is not positive or not yet reached; after an activation with a
    cap that is zero or negative it stays true however often the
    iteration counter is advanced. *)
Theorem shouldContinue_iff_and_unbounded :
  (forall st,
     shouldContinue st = true <->
     isActive st = true /\
     (maxIterations st <= 0 \/ currentIteration st < maxIterations st)) /\
  (forall prompt p cap yolo st0 n,
     cap <= 0 ->
     shouldContinue
       (Nat.iter n incrementIteration (activate prompt p cap yolo st0)) = true).
Proof.
  split; [exact shouldContinue_spec|].
  intros prompt p cap yolo st0 n Hcap. apply shouldContinue_spec.
  destruct (iter_increment_fields n (activate prompt p cap yolo st0))
    as (Ha & _ & _ & _ & Hm & _).
  rewrite Ha, Hm. simpl. split; [reflexivity|]. left. exact Hcap.
Qed.

Lemma shouldContinue_iff_and_unbounded_witness :
  -1 <= 0 /\
  shouldContinue
    (Nat.iter 100 incrementIteration
       (activate "Test prompt" PromiseUndefined (-1) false defaultState)) = true.
Proof.
  split; [lia|]. apply (proj2 shouldContinue_iff_and_unbounded). lia.
Defined.

(** C5, as stated, fails: a phrase that itself holds a closing tag is
    cut at that tag, and white space put inside a word of the tagged
    content changes the normalized content. *)
Lemma matches_tagged_phrase_counterexample :
  matches (Some "a</promise>b") ("<promise>" +:+ "a</promise>b" +:+ "</promise>") = false /\
  matches (Some "DONE") ("<promise>" +:+ "DO NE" +:+ "</promise>") = false.
Proof. split; reflexivity. Qed.

(** C5, amended: for every phrase that holds no closing tag,
    [matches] accepts the phrase between the tags; more generally, for
    tags in any letter case and whatever follows the first closing tag,
    [matches] compares the content of the first tag pair with the
    phrase, both normalized, for exact equality; and normalization
    ignores white space added at either end and the length and kind of
    any non-empty run of white space. *)
Theorem matches_tagged_phrase :
  (forall phrase,
     split_at_ci closeTag phrase = None ->
     matches (Some phrase) ("<promise>" +:+ phrase +:+ "</promise>") = true) /\
  (forall phrase content o c rest,
     ci_equal openTag o = true -> ci_equal closeTag c = true ->
     split_at_ci closeTag content = None ->
     matches (Some phrase) (o +:+ content +:+ c +:+ rest)
     = bool_decide (normalize content = normalize phrase)) /\
  (forall pre s post,
     blank pre = true -> blank post = true ->
     normalize (pre +:+ s +:+ post) = normalize s) /\
  (forall a w1 w2 b,
     blank w1 = true -> w1 <> "" -> blank w2 = true -> w2 <> "" ->
     normalize (a +:+ w1 +:+ b) = normalize (a +:+ w2 +:+ b)).
Proof.
  assert (Hgen : forall phrase content o c rest,
     ci_equal openTag o = true -> ci_equal closeTag c = true ->
     split_at_ci closeTag content = None ->
     matches (Some phrase) (o +:+ content +:+ c +:+ rest)
     = bool_decide (normalize content = normalize phrase)).
  { intros phrase content o c rest Ho Hc Hnone. unfold matches.
    rewrite extractPromise_tagged by assumption. reflexivity. }
  repeat split.
  - intros phrase Hnone.
    rewrite <- (app_empty_r "</promise>").
    rewrite (Hgen phrase phrase "<promise>" "</promise>" "") by (reflexivity || assumption).
    apply bool_decide_eq_true. reflexivity.
  - exact Hgen.
  - exact normalize_pad.
  - exact normalize_widen.
Qed.

Lemma matches_tagged_phrase_witness :
  split_at_ci closeTag "Task is complete" = None /\
  matches (Some "Task is complete")
    ("<promise>" +:+ "Task is complete" +:+ "</promise>") = true.
Proof.
  split; [reflexivity|].
  apply (proj1 matches_tagged_phrase). reflexivity.
Defined.

(** C6, as stated, fails: a phrase of three spaces is neither empty nor
    "none", so activation keeps it, and it normalizes to the empty
    string; the matcher then accepts an empty tag pair. *)
Lemma activate_blank_phrase_counterexample :
  exists p,
    completionPromise (activate "Test prompt" (PromiseText "   ") 0 false defaultState) = Some p /\
    normalize p = "" /\
    checkForPromise (activate "Test prompt" (PromiseText "   ") 0 false defaultState)
      "<promise>   </promise>" = true.
Proof. exists "". repeat split. Qed.

(** C6, amended: after an activation the stored phrase is null exactly
    when the phrase given was null, the empty string, or "none" in any
    letter case; a stored phrase that is not null normalizes to the
    empty string exactly when the phrase given was a non-empty string of
    white space only. *)
Theorem activate_completionPromise :
  forall prompt arg cap yolo st0,
    (completionPromise (activate prompt arg cap yolo st0) = None <->
     arg = PromiseNull \/
     exists s, arg = PromiseText s /\ (s = "" \/ toLowerCase s = "none")) /\
    (forall p,
       completionPromise (activate prompt arg cap yolo st0) = Some p ->
       (normalize p = "" <->
        exists s, arg = PromiseText s /\ s <> "" /\ blank s = true)).
Proof.
  intros prompt arg cap yolo st0. simpl. split.
  - destruct arg as [| |s]; simpl.
    + split; [discriminate|]. intros [|(s & ? & _)]; discriminate.
    + split; auto.
    + destruct (bool_decide (s = "")) eqn:E1; simpl.
      * apply bool_decide_eq_true in E1. split; eauto.
      * destruct (bool_decide (toLowerCase s = "none")) eqn:E2.
        -- apply bool_decide_eq_true in E2. split; eauto.
        -- apply bool_decide_eq_false in E1. apply bool_decide_eq_false in E2.
           split; [discriminate|].
           intros [|(s' & [= <-] & [|])]; [discriminate|contradiction..].
  - intros p Hp. destruct arg as [| |s]; simpl in Hp.
    + injection Hp as <-. split; [discriminate|]. intros (s & ? & _). discriminate.
    + discriminate.
    + destruct (bool_decide (s = "")) eqn:E1; simpl in Hp; [discriminate|].
      destruct (bool_decide (toLowerCase s = "none")) eqn:E2; [discriminate|].
      injection Hp as <-. apply bool_decide_eq_false in E1.
      rewrite normalize_empty_iff, blank_normalize. split.
      * intros Hb. exists s. auto.
      * intros (s' & [= <-] & _ & Hb). exact Hb.
Qed.

Lemma activate_completionPromise_witness :
  completionPromise (activate "task" (PromiseText "NoNe") 0 false defaultState) = None.
Proof.
  apply (proj1 (activate_completionPromise "task" (PromiseText "NoNe") 0 false defaultState)).
  right. exists "NoNe". split; [reflexivity|]. right. reflexivity.
Defined.

End RalphModeFacts.

(* ===================================================================== *)
(** * The behaviour the tests of the loop state pin down *)
(* ===================================================================== *)

Module RalphModeTests.
Import RalphMode.

Definition nl : string := String "010" "".

Example default_promise_well_formed :
  JsString.split_at_ci "task is complete" DEFAULT_COMPLETION_PROMISE <> None /\
  JsString.split_at_ci "requirements" DEFAULT_COMPLETION_PROMISE <> None /\
  JsString.split_at_ci "production-ready" DEFAULT_COMPLETION_PROMISE <> None.
Proof. vm_compute. repeat split; discriminate. Qed.

Example activate_custom_promise :
  completionPromise (activate "Test prompt" (PromiseText "All tests are passing") 10 false defaultState)
  = Some "All tests are passing".
Proof. reflexivity. Qed.

Example check_exact_match :
  checkForPromise (activate "Test prompt" (PromiseText "Task is complete") 0 false defaultState)
    ("Some text before" +:+ nl +:+ "<promise>Task is complete</promise>" +:+ nl +:+ "Some text after")
  = true.
Proof. reflexivity. Qed.

Example check_whitespace_normalization :
  checkForPromise (activate "Test prompt" (PromiseText "Task is complete") 0 false defaultState)
    ("<promise>  Task   is" +:+ nl +:+ "complete  </promise>") = true.
Proof. reflexivity. Qed.

Example check_case_insensitive_tags :
  checkForPromise (activate "Test prompt" (PromiseText "Task is complete") 0 false defaultState)
    "<PROMISE>Task is complete</PROMISE>" = true /\
  checkForPromise (activate "Test prompt" (PromiseText "Task is complete") 0 false defaultState)
    "<Promise>Task is complete</Promise>" = true.
Proof. split; reflexivity. Qed.

Example check_partial_and_wrong :
  let st := activate "Test prompt" (PromiseText "Task is complete") 0 false defaultState in
  checkForPromise st "<promise>Task is</promise>" = false /\
  checkForPromise st "<promise>Different promise text</promise>" = false /\
  checkForPromise st "Task is complete but not in tags" = false.
Proof. repeat split; reflexivity. Qed.

Example check_malformed_tags :
  let st := activate "Test prompt" (PromiseText "Task complete") 0 false defaultState in
  checkForPromise st "<promise>Task complete" = false /\
  checkForPromise st "Task complete</promise>" = false /\
  checkForPromise st "<promise />" = false.
Proof. repeat split; reflexivity. Qed.

Example check_first_of_many :
  checkForPromise (activate "Test prompt" (PromiseText "First promise") 0 false defaultState)
    ("<promise>First promise</promise>" +:+ nl +:+ "<promise>Second promise</promise>") = true.
Proof. reflexivity. Qed.

Example check_null_promise :
  checkForPromise (activate "Test prompt" PromiseNull 0 false defaultState)
    "<promise>Some promise text</promise>" = false.
Proof. reflexivity. Qed.

Example check_blank_promise :
  checkForPromise (activate "Test prompt" (PromiseText "   ") 0 false defaultState)
    "<promise>   </promise>" = true.
Proof. reflexivity. Qed.

Example should_continue_cap_three :
  let s1 := activate "Test prompt" PromiseUndefined 3 false defaultState in
  let s2 := incrementIteration s1 in
  let s3 := incrementIteration s2 in
  shouldContinue s1 = true /\ shouldContinue s2 = true /\ shouldContinue s3 = false /\
  shouldContinue defaultState = false.
Proof. repeat split; reflexivity. Qed.

Example increment_when_inactive :
  currentIteration (incrementIteration defaultState) = 1.
Proof. reflexivity. Qed.

End RalphModeTests.

(* ===================================================================== *)
(** * Properties of the command-line handler *)
(* ===================================================================== *)

Module RalphCliFacts.
Import JsString RalphMode RalphCli RalphSpec RalphProtocol.

Section Facts.
Context `{P : Platform}.

Ltac unfold_m :=
  unfold bind, ret, emit, call, console_error, getState, onRalph in *.

Lemma env_eta (env : Env) :
  mkEnv (world env) (ralph env) (trace env) (stderr env) = env.
Proof. destruct env; reflexivity. Qed.

(** ** Arbitration *)

Lemma decideApproval_run a env :
  decideApproval a env =
    let (perm, w) := checkToolPermission (toolName a) (parsedArgsOf a) (world env) in
    (arbitrate perm (parsedArgsOf a) (requiredOf (toolName a)) a,
     mkEnv w (ralph env)
       (trace env ++ [EvCheckPermission (toolName a) (parsedArgsOf a)])
       (stderr env)).
Proof.
  unfold decideApproval, checkPermission, safeJsonParseOr, parsedArgsOf.
  unfold_m. simpl.
  destruct (checkToolPermission _ _ _) as [perm w]. unfold arbitrate.
  destruct (decision perm); try reflexivity.
  destruct (filterThrowing _ _) as [[|k [|k' m]]|e]; reflexivity.
Qed.

Lemma decideApprovals_run pending : forall acc env,
  decideApprovals pending acc env =
    let '(r, checked, w) := arbitrateBatch pending (world env) in
    (match r with
     | Normal ds => Normal (acc ++ ds)
     | Throw e => Throw e
     end,
     mkEnv w (ralph env) (trace env ++ checkEvents checked) (stderr env)).
Proof.
  induction pending as [|a rest IH]; intros acc env; simpl.
  - unfold ret. rewrite !app_nil_r, env_eta. reflexivity.
  - unfold bind. rewrite decideApproval_run.
    destruct (checkToolPermission _ _ _) as [perm w1].
    destruct (arbitrate _ _ _ _) as [d|e]; [|reflexivity].
    rewrite IH. simpl.
    destruct (arbitrateBatch rest w1) as [[[ds|e] checked] w2];
      rewrite <- !app_assoc; reflexivity.
Qed.

Lemma arbitrate_approval perm args req a d :
  arbitrate perm args req a = Normal d -> decisionApproval d = a.
Proof.
  unfold arbitrate. destruct (decision perm).
  - destruct (filterThrowing _ _) as [[|k [|k' m]]|e]; intros [= <-]; reflexivity.
  - intros [= <-]. reflexivity.
  - intros [= <-]. reflexivity.
Qed.

Lemma isMissing_throws args key :
  isObject args = false -> isMissing args key = Throw TypeError.
Proof. destruct args; (discriminate || reflexivity). Qed.

Lemma isMissing_returns args key :
  isObject args = true -> exists b, isMissing args key = Normal b.
Proof. destruct args; try discriminate; intros _; eexists; reflexivity. Qed.

Lemma filterThrowing_returns args req :
  isObject args = true ->
  exists missing, filterThrowing (isMissing args) req = Normal missing.
Proof.
  intros Hobj. induction req as [|key req [missing IH]]; [eexists; reflexivity|].
  simpl. destruct (isMissing_returns args key Hobj) as [b ->]. rewrite IH.
  eexists; reflexivity.
Qed.

(** The arbitration of one approval throws exactly when the tool is
    allowed, some key is required, and the parsed arguments are not an
    object. *)
Lemma arbitrate_throws perm args req a e :
  arbitrate perm args req a = Throw e <->
  e = TypeError /\ decision perm = allow /\ req <> [] /\ isObject args = false.
Proof.
  unfold arbitrate. split.
  - destruct (decision perm); try discriminate.
    destruct (isObject args) eqn:Hobj.
    + destruct (filterThrowing_returns args req Hobj) as [missing ->].
      destruct missing as [|k [|k' m]]; discriminate.
    + destruct req as [|key req]; [discriminate|]. simpl.
      rewrite (isMissing_throws args key Hobj). intros _. destruct e.
      repeat split; discriminate.
  - intros (-> & -> & Hreq & Hobj). destruct req as [|key req]; [congruence|].
    simpl. rewrite (isMissing_throws args key Hobj). reflexivity.
Qed.

Lemma arbitrateBatch_normal pending : forall w ds checked w',
  arbitrateBatch pending w = (Normal ds, checked, w') ->
  checked = pending /\ map decisionApproval ds = pending.
Proof.
  induction pending as [|a rest IH]; intros w ds checked w'; simpl.
  - intros [= <- <- _]. auto.
  - destruct (checkToolPermission _ _ _) as [perm w1].
    destruct (arbitrate _ _ _ _) as [d|e] eqn:Ha; [|discriminate].
    destruct (arbitrateBatch rest w1) as [[[ds'|e] checked'] w2] eqn:Hb; [|discriminate].
    intros [= <- <- _]. destruct (IH _ _ _ _ Hb) as [-> Hm].
    simpl. rewrite Hm, (arbitrate_approval _ _ _ _ _ Ha). auto.
Qed.

Lemma arbitrateBatch_throw pending : forall w e checked w',
  arbitrateBatch pending w = (Throw e, checked, w') ->
  exists before a after,
    pending = before ++ a :: after /\ checked = before ++ [a] /\
    e = TypeError /\ requiredOf (toolName a) <> [] /\
    isObject (parsedArgsOf a) = false /\
    exists w0,
      decision (fst (checkToolPermission (toolName a) (parsedArgsOf a) w0)) = allow.
Proof.
  induction pending as [|a rest IH]; intros w e checked w'; simpl.
  - discriminate.
  - destruct (checkToolPermission _ _ _) as [perm w1] eqn:Hc.
    destruct (arbitrate _ _ _ _) as [d|e'] eqn:Ha.
    + destruct (arbitrateBatch rest w1) as [[[ds'|e''] checked'] w2] eqn:Hb;
        [discriminate|].
      intros H. inversion H; subst.
      destruct (IH _ _ _ _ Hb)
        as (before & b & after & -> & -> & He & Hreq & Hobj & Hw).
      exists (a :: before), b, after. destruct e. auto 10.
    + intros H. inversion H; subst.
      apply arbitrate_throws in Ha as (He & Hallow & Hreq & Hobj).
      exists [], a, rest. destruct e. repeat split; try assumption.
      exists w. rewrite Hc. exact Hallow.
Qed.

Lemma Performs_app w l1 w1 l2 w2 :
  Performs w l1 w1 -> Performs w1 l2 w2 -> Performs w (l1 ++ l2) w2.
Proof.
  induction 1; intros H2; simpl; [exact H2|econstructor; eauto..].
Qed.

Lemma arbitrateBatch_performs pending : forall w,
  Performs w (checkEvents (snd (fst (arbitrateBatch pending w))))
    (snd (arbitrateBatch pending w)).
Proof.
  induction pending as [|a rest IH]; intros w; simpl; [constructor|].
  destruct (checkToolPermission _ _ _) as [perm w1] eqn:Hc.
  destruct (arbitrate _ _ _ _) as [d|e].
  - specialize (IH w1). destruct (arbitrateBatch rest w1) as [[r checked] w2].
    cbn [fst snd] in *. simpl. econstructor; eauto.
  - cbn [fst snd]. simpl. econstructor; [exact Hc|constructor].
Qed.

(** ** Which properties a value provides *)

Lemma indexOfKey_Some n key i :
  indexOfKey n key = Some i -> (i < n)%nat /\ of_Z (Z.of_nat i) = key.
Proof.
  unfold indexOfKey. intros H. apply find_some in H as [Hin Hk].
  apply in_seq in Hin. apply bool_decide_eq_true in Hk. split; [lia|exact Hk].
Qed.

Lemma indexOfKey_None n key :
  indexOfKey n key = None -> key ∉ indexKeys n.
Proof.
  unfold indexOfKey, indexKeys. intros H Hin.
  apply list_elem_of_In, in_map_iff in Hin as (i & Hk & Hin).
  pose proof (find_none _ _ H i Hin) as Hf. simpl in Hf.
  apply bool_decide_eq_false in Hf. contradiction.
Qed.

Lemma indexOfKey_index n i :
  (i < n)%nat -> indexOfKey n (of_Z (Z.of_nat i)) = Some i.
Proof.
  intros Hi. destruct (indexOfKey n (of_Z (Z.of_nat i))) as [j|] eqn:E.
  - apply indexOfKey_Some in E as [_ Hj].
    apply JsStringFacts.of_Z_inj in Hj. f_equal. lia.
  - apply indexOfKey_None in E. exfalso. apply E.
    unfold indexKeys. apply list_elem_of_In, in_map_iff.
    exists i. split; [reflexivity|]. apply in_seq. lia.
Qed.

Lemma inherited_object key :
  inherited false key = true <-> key ∈ objectPrototypeKeys.
Proof. unfold inherited. simpl. apply bool_decide_eq_true. Qed.

Lemma inherited_array key :
  inherited true key = true <->
  arrayPrototypeHas key = true \/ key ∈ objectPrototypeKeys.
Proof.
  unfold inherited. simpl. rewrite orb_true_iff, bool_decide_eq_true. reflexivity.
Qed.

(** On an object or an array, the predicate of the filter rejects a key
    exactly when the value provides it. *)
Lemma isMissing_provides args key :
  isObject args = true ->
  (isMissing args key = Normal false <-> Provides args key) /\
  (isMissing args key = Normal true <-> ~ Provides args key).
Proof.
  intros Hobj.
  assert (Hb : exists b, isMissing args key = Normal b /\ (b = false <-> Provides args key)).
  { destruct args as [| | | |items|fields]; try discriminate; unfold isMissing; simpl.
    - destruct (indexOfKey (length items) key) as [i|] eqn:Hi.
      + destruct (indexOfKey_Some _ _ _ Hi) as [Hlt <-].
        rewrite bool_decide_eq_true_2 by eauto. simpl.
        eexists. split; [reflexivity|].
        destruct (items !! i) as [x|] eqn:Hx.
        * split.
          -- intros Hn. apply (provides_item items i x Hx). intros ->. discriminate.
          -- intros Hp. inversion Hp; subst.
             ++ match goal with
                | Hk : of_Z (Z.of_nat ?j) = of_Z _, Hy : items !! ?j = Some ?y |- _ =>
                    apply JsStringFacts.of_Z_inj in Hk;
                    assert (j = i) by lia; subst j;
                    assert (y = x) by congruence; subst y
                end.
                destruct x; congruence.
             ++ match goal with
                | Hk : "length" = of_Z _ |- _ =>
                    symmetry in Hk; destruct (JsStringFacts.of_Z_not_length _ Hk)
                end.
             ++ match goal with Hnot : _ ∉ indexKeys _ |- _ => exfalso; apply Hnot end.
                unfold indexKeys. apply list_elem_of_In, in_map_iff. exists i.
                split; [reflexivity|]. apply in_seq. lia.
        * apply lookup_ge_None in Hx. lia.
      + rewrite bool_decide_eq_false_2 by (intros [? ?]; discriminate). simpl.
        eexists. split; [reflexivity|].
        rewrite orb_diag, negb_false_iff, orb_true_iff, bool_decide_eq_true,
          inherited_array.
        split.
        * intros [->|Hinh]; [constructor|].
          apply provides_array_inherited; [|exact Hinh].
          apply indexOfKey_None. exact Hi.
        * intros Hp. inversion Hp; subst; auto.
          match goal with
          | Hy : items !! _ = Some _ |- _ =>
              apply lookup_lt_Some in Hy; rewrite indexOfKey_index in Hi by exact Hy
          end.
          discriminate.
    - destruct (fields !! key) as [x|] eqn:Hx.
      + rewrite bool_decide_eq_true_2 by eauto. simpl.
        eexists. split; [reflexivity|]. split.
        * intros Hn. apply (provides_own fields key x Hx). intros ->. discriminate.
        * intros Hp. inversion Hp; subst; [|congruence].
          match goal with
          | Hy : fields !! key = Some ?y |- _ => assert (y = x) by congruence; subst y
          end.
          destruct x; congruence.
      + rewrite bool_decide_eq_false_2 by (intros [? ?]; discriminate). simpl.
        eexists. split; [reflexivity|].
        rewrite orb_diag, negb_false_iff, inherited_object. split.
        * intros Hin. apply provides_inherited; assumption.
        * intros Hp. inversion Hp; subst; [congruence|assumption]. }
  destruct Hb as (b & -> & Hb). split.
  - rewrite <- Hb. split; [intros [= ->]; reflexivity|intros ->; reflexivity].
  - rewrite <- Hb. destruct b; split; (congruence || discriminate || auto).
Qed.

Lemma Provides_isObject args key : Provides args key -> isObject args = true.
Proof. destruct 1; reflexivity. Qed.

Lemma filterThrowing_nil {A} (f : A -> Completion bool) l :
  filterThrowing f l = Normal [] <-> Forall (fun x => f x = Normal false) l.
Proof.
  induction l as [|x l IH]; simpl; [split; auto|]. split.
  - destruct (f x) as [[|]|e] eqn:Hx; try discriminate;
      destruct (filterThrowing f l) as [kept|e']; try discriminate.
    intros H. constructor; [exact Hx|apply IH; exact H].
  - intros H. inversion H as [|? ? Hx Hl]; subst. rewrite Hx.
    apply IH in Hl. rewrite Hl. reflexivity.
Qed.

(** Nothing is missing exactly when the value provides every required
    key. *)
Lemma nothing_missing args req :
  filterThrowing (isMissing args) req = Normal [] <-> Forall (Provides args) req.
Proof.
  rewrite filterThrowing_nil. split; intros H.
  - eapply Forall_impl; [exact H|]. intros key Hk. simpl in Hk.
    destruct (isObject args) eqn:Hobj.
    + apply (isMissing_provides args key Hobj). exact Hk.
    + rewrite isMissing_throws in Hk by exact Hobj. discriminate.
  - eapply Forall_impl; [exact H|]. intros key Hk. simpl.
    apply (isMissing_provides args key (Provides_isObject _ _ Hk)). exact Hk.
Qed.


(** ** One pass through the loop body *)

Lemma loopBody_run prompt input env :
  loopBody prompt input env =
    let (d, w2) := drainStreamWithResume (sendMessageStream input (world env)) in
    let tr := trace env ++ [EvSend input; EvDrain d] in
    if completionMatched (ralph env) d then
      (Return 0,
       mkEnv w2 (ralph env) tr
         ((stderr env ++ [""]) ++
          ["✅ Completion promise matched - exiting successfully"]))
    else if bool_decide (stopReason d = "requires_approval") then
      let pending := default [] (approvals d) in
      if (length pending =? 0)%nat then
        (Return 2,
         mkEnv w2 (ralph env) tr (stderr env ++ ["Unexpected empty approvals array"]))
      else
        let '(r, checked, w3) := arbitrateBatch pending w2 in
        match r with
        | Throw e =>
            (Raise e, mkEnv w3 (ralph env) (tr ++ checkEvents checked) (stderr env))
        | Normal ds =>
            let (results, w4) := executeApprovalBatch ds w3 in
            (Continue [ApprovalCreate results],
             mkEnv w4 (ralph env) (tr ++ checkEvents checked ++ [EvExecute ds results])
               (stderr env))
        end
    else if negb (bool_decide (stopReason d = "end_turn")) then
      (Return 2,
       mkEnv w2 (ralph env) tr
         ((stderr env ++ [""]) ++
          ["❌ Error: " +:+ errorMessage (lines d) (stopReason d)]))
    else
      let newState := incrementIteration (ralph env) in
      (Continue
         [UserMessage (buildRalphContinuationReminder newState +:+ nl +:+ nl +:+ prompt)],
       mkEnv w2 newState tr
         ((stderr env ++ [""]) ++ ["🔄 Iteration " +:+ iterInfo newState +:+ "..."])).
Proof.
  unfold loopBody, send, drain. unfold_m. simpl.
  destruct (drainStreamWithResume _) as [d w2]. simpl.
  rewrite <- app_assoc. simpl.
  unfold completionMatched.
  destruct (lastAssistant (lines d)) as [line|]; simpl.
  - destruct (checkForPromise (ralph env) (default "" (text line))); [reflexivity|].
    destruct (bool_decide (stopReason d = "requires_approval")).
    + destruct (length (default [] (approvals d)) =? 0)%nat; [reflexivity|].
      unfold execute. unfold_m. rewrite decideApprovals_run. simpl.
      destruct (arbitrateBatch _ w2) as [[[ds|e] checked] w3]; simpl; [|reflexivity].
      destruct (executeApprovalBatch ds w3) as [results w4].
      cbn [world ralph trace stderr]. rewrite <- !app_assoc. reflexivity.
    + destruct (bool_decide (stopReason d = "end_turn")); reflexivity.
  - destruct (bool_decide (stopReason d = "requires_approval")).
    + destruct (length (default [] (approvals d)) =? 0)%nat; [reflexivity|].
      unfold execute. unfold_m. rewrite decideApprovals_run. simpl.
      destruct (arbitrateBatch _ w2) as [[[ds|e] checked] w3]; simpl; [|reflexivity].
      destruct (executeApprovalBatch ds w3) as [results w4].
      cbn [world ralph trace stderr]. rewrite <- !app_assoc. reflexivity.
    + destruct (bool_decide (stopReason d = "end_turn")); reflexivity.
Qed.

Lemma mainLoop_unfold fuel prompt cap input env :
  mainLoop fuel prompt cap input env =
    if shouldContinue (ralph env) then
      match fuel with
      | O => (OutOfFuel, env)
      | S fuel' =>
          let (next, env1) := loopBody prompt input env in
          match next with
          | Return code => (Exit code, env1)
          | Continue nextInput => mainLoop fuel' prompt cap nextInput env1
          | Raise e => (Thrown e, env1)
          end
      end
    else
      (Exit 1,
       mkEnv (world env) (ralph env) (trace env)
         ((stderr env ++ [""]) ++
          ["⚠️  Max iterations (" +:+ JsString.of_Z cap +:+ ") reached"])).
Proof.
  destruct fuel; simpl; unfold_m; destruct (shouldContinue (ralph env)); try reflexivity.
  destruct (loopBody prompt input env) as [[code|nextInput|e] env1]; reflexivity.
Qed.

(** ** The line the completion check reads *)

Lemma lastAssistant_snoc ls x :
  lastAssistant (ls ++ [x]) = if isAssistantText x then Some x else lastAssistant ls.
Proof. unfold lastAssistant. rewrite rev_app_distr. reflexivity. Qed.

Lemma dropWhiteSpace_nil l :
  dropWhiteSpace l = [] <-> Forall (fun c => isWhiteSpace c = true) l.
Proof.
  induction l as [|c l IH]; simpl; [split; auto|].
  destruct (isWhiteSpace c) eqn:Hc.
  - rewrite IH. split; [intros; constructor; assumption|].
    intros H. inversion H. assumption.
  - split; [discriminate|]. intros H. inversion H. congruence.
Qed.

Lemma dropWhiteSpace_head l c r :
  dropWhiteSpace l = c :: r -> isWhiteSpace c = false.
Proof.
  induction l as [|x l IH]; simpl; [discriminate|].
  destruct (isWhiteSpace x) eqn:Hx; [exact IH|]. intros [= <- _]. exact Hx.
Qed.

Lemma trimPoints_nil l :
  trimPoints l = [] <-> Forall (fun c => isWhiteSpace c = true) l.
Proof.
  unfold trimPoints. split.
  - intros H. apply dropWhiteSpace_nil.
    destruct (dropWhiteSpace l) as [|c r] eqn:Hd; [reflexivity|].
    pose proof (dropWhiteSpace_head l c r Hd) as Hc.
    assert (Hrev : dropWhiteSpace (rev (c :: r)) = []).
    { destruct (dropWhiteSpace (rev (c :: r))); [reflexivity|].
      apply (f_equal (@length N)) in H. rewrite length_rev in H. discriminate. }
    apply dropWhiteSpace_nil in Hrev. apply Forall_rev in Hrev.
    rewrite rev_involutive in Hrev. inversion Hrev. congruence.
  - intros H. apply dropWhiteSpace_nil in H. rewrite H. reflexivity.
Qed.

Lemma trimsToText_false t :
  trimsToText t = false <-> Forall (fun c => isWhiteSpace c = true) (codePoints t).
Proof.
  unfold trimsToText. rewrite <- trimPoints_nil.
  destruct (trimPoints (codePoints t)); simpl; split; (discriminate || reflexivity).
Qed.

Lemma trimsToText_true t :
  trimsToText t = true <-> Exists (fun c => isWhiteSpace c = false) (codePoints t).
Proof.
  split.
  - intros H.
    assert (Hdec : forall l,
              Forall (fun c => isWhiteSpace c = true) l \/
              Exists (fun c => isWhiteSpace c = false) l).
    { induction l as [|c l [IH|IH]]; [left; constructor| |right; right; exact IH].
      destruct (isWhiteSpace c) eqn:Hc; [left|right; left; exact Hc].
      constructor; assumption. }
    destruct (Hdec (codePoints t)) as [Hall|Hex]; [|exact Hex].
    apply trimsToText_false in Hall. congruence.
  - intros H. apply not_false_iff_true. intros Hf.
    apply trimsToText_false in Hf. apply Exists_exists in H as (c & Hin & Hc).
    rewrite Forall_forall in Hf. specialize (Hf c Hin). congruence.
Qed.

Lemma isAssistantText_inv line :
  isAssistantText line = true ->
  exists t, kind line = "assistant" /\ text line = Some t /\
            Exists (fun c => isWhiteSpace c = false) (codePoints t).
Proof.
  unfold isAssistantText. intros [Hk Ht]%andb_true_iff.
  apply bool_decide_eq_true in Hk.
  destruct (text line) as [t|]; [|discriminate].
  apply trimsToText_true in Ht. eauto.
Qed.

Lemma isAssistantText_false line :
  isAssistantText line = false -> PassedOver line.
Proof.
  unfold isAssistantText, PassedOver. intros [Hk|Ht]%andb_false_iff.
  - left. apply bool_decide_eq_false in Hk. exact Hk.
  - right. destruct (text line) as [t|]; [|exact I].
    apply trimsToText_false. exact Ht.
Qed.

Lemma lastAssistant_spec ls :
  match lastAssistant ls with
  | Some line =>
      exists pre post t,
        ls = pre ++ line :: post /\ kind line = "assistant" /\
        text line = Some t /\
        Exists (fun c => isWhiteSpace c = false) (codePoints t) /\
        Forall PassedOver post
  | None => Forall PassedOver ls
  end.
Proof.
  induction ls as [|x ls IH] using rev_ind; [constructor|].
  rewrite lastAssistant_snoc. destruct (isAssistantText x) eqn:Hx.
  - destruct (isAssistantText_inv x Hx) as (t & Hk & Ht & Hne).
    exists ls, [], t. auto.
  - apply isAssistantText_false in Hx. destruct (lastAssistant ls) as [line|].
    + destruct IH as (pre & post & t & -> & Hk & Ht & Hne & Hpost).
      exists pre, (post ++ [x]), t. rewrite <- app_assoc. simpl.
      repeat split; try assumption.
      apply Forall_app. split; [assumption|]. constructor; [assumption|constructor].
    + apply Forall_app. split; [assumption|]. constructor; [assumption|constructor].
Qed.

Lemma shouldContinue_active_under st :
  isActive st = true -> currentIteration st < maxIterations st ->
  shouldContinue st = true.
Proof. intros. apply RalphModeFacts.shouldContinue_spec. auto. Qed.

Lemma shouldContinue_reached st :
  0 < maxIterations st -> maxIterations st <= currentIteration st ->
  shouldContinue st = false.
Proof.
  intros. apply not_true_is_false. intros H1.
  apply RalphModeFacts.shouldContinue_spec in H1. lia.
Qed.

Lemma mainLoop_exhausted fuel prompt cap input env :
  shouldContinue (ralph env) = false ->
  mainLoop fuel prompt cap input env =
    (Exit 1,
     mkEnv (world env) (ralph env) (trace env)
       ((stderr env ++ [""]) ++
        ["⚠️  Max iterations (" +:+ JsString.of_Z cap +:+ ") reached"])).
Proof. intros H. rewrite mainLoop_unfold, H. reflexivity. Qed.

Lemma mainLoop_end_turn fuel prompt cap input env d w2 :
  shouldContinue (ralph env) = true ->
  drainStreamWithResume (sendMessageStream input (world env)) = (d, w2) ->
  stopReason d = "end_turn" ->
  completionMatched (ralph env) d = false ->
  mainLoop (S fuel) prompt cap input env =
    mainLoop fuel prompt cap
      [UserMessage (buildRalphContinuationReminder (incrementIteration (ralph env))
                    +:+ nl +:+ nl +:+ prompt)]
      (mkEnv w2 (incrementIteration (ralph env))
         (trace env ++ [EvSend input; EvDrain d])
         ((stderr env ++ [""]) ++
          ["🔄 Iteration " +:+ iterInfo (incrementIteration (ralph env)) +:+ "..."])).
Proof.
  intros Hc Hd Hs Hm. rewrite mainLoop_unfold, Hc, loopBody_run, Hd, Hm, Hs.
  rewrite bool_decide_eq_false_2 by discriminate.
  rewrite bool_decide_eq_true_2 by reflexivity. reflexivity.
Qed.

Lemma loopBody_ralph_cases prompt input env :
  ralph (snd (loopBody prompt input env)) = ralph env \/
  (stopReason (fst (drainStreamWithResume (sendMessageStream input (world env))))
     = "end_turn" /\
   completionMatched (ralph env)
     (fst (drainStreamWithResume (sendMessageStream input (world env)))) = false /\
   ralph (snd (loopBody prompt input env)) = incrementIteration (ralph env)).
Proof.
  rewrite loopBody_run.
  destruct (drainStreamWithResume _) as [d w2]. cbn [fst].
  destruct (completionMatched (ralph env) d); [left; reflexivity|].
  destruct (bool_decide (stopReason d = "requires_approval")).
  - cbv zeta. destruct (length (default [] (approvals d)) =? 0)%nat; [left; reflexivity|].
    destruct (arbitrateBatch _ w2) as [[[ds|e] checked] w3]; [|left; reflexivity].
    destruct (executeApprovalBatch ds w3) as [results w4]. left. reflexivity.
  - destruct (bool_decide (stopReason d = "end_turn")) eqn:E; simpl.
    + apply bool_decide_eq_true in E. right. auto.
    + left. reflexivity.
Qed.


Lemma mainLoop_ralph fuel prompt cap : forall input env,
  exists n,
    ralph (snd (mainLoop fuel prompt cap input env))
    = Nat.iter n incrementIteration (ralph env).
Proof.
  induction fuel as [|fuel IH]; intros input env; rewrite mainLoop_unfold;
    destruct (shouldContinue (ralph env)); try (exists 0%nat; reflexivity).
  destruct (loopBody_ralph_cases prompt input env) as [Hr|(_ & _ & Hr)];
    destruct (loopBody prompt input env) as [[code|nextInput|e] env1]; cbn [snd] in *.
  - exists 0%nat. exact Hr.
  - destruct (IH nextInput env1) as [n Hn]. exists n. rewrite Hn, Hr. reflexivity.
  - exists 0%nat. exact Hr.
  - exists 1%nat. exact Hr.
  - destruct (IH nextInput env1) as [n Hn]. exists (S n). rewrite Hn, Hr.
    rewrite Nat.iter_succ_r. reflexivity.
  - exists 1%nat. exact Hr.
Qed.


(** ** The calls reach the collaborators *)

Lemma loopBody_performs prompt input env :
  exists more,
    trace (snd (loopBody prompt input env)) = trace env ++ more /\
    Performs (world env) more (world (snd (loopBody prompt input env))).
Proof.
  rewrite loopBody_run.
  destruct (drainStreamWithResume _) as [d w2] eqn:Hd.
  assert (Hturn : forall w, Performs w2 [] w -> Performs (world env) [EvSend input; EvDrain d] w).
  { intros w Hw. inversion Hw; subst. apply performs_send.
    eapply performs_drain; [exact Hd|constructor]. }
  destruct (completionMatched (ralph env) d);
    [eexists; split; [reflexivity|apply Hturn; constructor]|].
  destruct (bool_decide (stopReason d = "requires_approval")).
  - cbv zeta. destruct (length (default [] (approvals d)) =? 0)%nat;
      [eexists; split; [reflexivity|apply Hturn; constructor]|].
    pose proof (arbitrateBatch_performs (default [] (approvals d)) w2) as Hp.
    destruct (arbitrateBatch _ w2) as [[[ds|e] checked] w3]; cbn [fst snd] in Hp.
    + destruct (executeApprovalBatch ds w3) as [results w4] eqn:He.
      exists ([EvSend input; EvDrain d] ++ checkEvents checked ++ [EvExecute ds results]).
      split; [cbn [snd trace]; rewrite <- app_assoc; reflexivity|].
      cbn [snd world]. eapply Performs_app; [apply Hturn; constructor|].
      eapply Performs_app; [exact Hp|].
      eapply performs_execute; [exact He|constructor].
    + exists ([EvSend input; EvDrain d] ++ checkEvents checked).
      split; [cbn [snd trace]; rewrite <- app_assoc; reflexivity|].
      cbn [snd world]. eapply Performs_app; [apply Hturn; constructor|exact Hp].
  - destruct (negb _); eexists; (split; [reflexivity|apply Hturn; constructor]).
Qed.

Lemma mainLoop_performs fuel prompt cap : forall input env,
  exists more,
    trace (snd (mainLoop fuel prompt cap input env)) = trace env ++ more /\
    Performs (world env) more (world (snd (mainLoop fuel prompt cap input env))).
Proof.
  induction fuel as [|fuel IH]; intros input env; rewrite mainLoop_unfold;
    destruct (shouldContinue (ralph env));
    try (exists []; rewrite app_nil_r; split; [reflexivity|constructor]).
  destruct (loopBody_performs prompt input env) as (more1 & H1 & Hp1).
  destruct (loopBody prompt input env) as [[code|nextInput|e] env1]; cbn [snd] in *.
  - exists more1. auto.
  - destruct (IH nextInput env1) as (more2 & H2 & Hp2).
    exists (more1 ++ more2). split; [rewrite H2, H1, <- app_assoc; reflexivity|].
    eapply Performs_app; eassumption.
  - exists more1. auto.
Qed.

(** ** The claims about one turn *)

(** C1: with a cap of three the handler does not run three turns. After
    an activation with [maxIterations = 3], two turns that stop with
    [end_turn] without a matching promise bring the counter to 3; the
    loop condition then fails, no third turn is sent, and the handler
    leaves with exit code 1. *)
Theorem cap_three_exhausts_after_two_turns :
  forall prompt input env fuel d1 w1 d2 w2,
    isActive (ralph env) = true ->
    maxIterations (ralph env) = 3 ->
    currentIteration (ralph env) = 1 ->
    drainStreamWithResume (sendMessageStream input (world env)) = (d1, w1) ->
    stopReason d1 = "end_turn" ->
    completionMatched (ralph env) d1 = false ->
    let st2 := incrementIteration (ralph env) in
    let input2 :=
      [UserMessage (buildRalphContinuationReminder st2 +:+ nl +:+ nl +:+ prompt)] in
    drainStreamWithResume (sendMessageStream input2 w1) = (d2, w2) ->
    stopReason d2 = "end_turn" ->
    completionMatched st2 d2 = false ->
    exists env',
      mainLoop (S (S fuel)) prompt 3 input env = (Exit 1, env') /\
      world env' = w2 /\
      currentIteration (ralph env') = 3 /\
      trace env' = trace env ++ [EvSend input; EvDrain d1; EvSend input2; EvDrain d2].
Proof.
  intros prompt input env fuel d1 w1 d2 w2 Hact Hcap Hcur Hd1 Hs1 Hm1 st2 input2 Hd2 Hs2 Hm2.
  rewrite (mainLoop_end_turn _ _ _ _ _ d1 w1)
    by (try apply shouldContinue_active_under; (assumption || lia)).
  fold st2. fold input2.
  rewrite (mainLoop_end_turn _ _ _ _ _ d2 w2);
    [|apply shouldContinue_active_under; subst st2; simpl; (assumption || lia)
     |assumption..].
  rewrite mainLoop_exhausted by (subst st2; apply shouldContinue_reached; simpl; lia).
  eexists. split; [reflexivity|]. simpl.
  repeat split; [subst st2; simpl; lia|].
  rewrite <- app_assoc. reflexivity.
Qed.

(** C2, amended: the line the completion check reads is the last
    assistant line whose text is a string holding a code point that is
    not white space of ECMAScript (so that trimming leaves it
    non-empty); every line after it is of another kind, has no text
    string, or holds white space only, and when no line qualifies all
    lines are such. When there is such a line and the matcher accepts
    its text, the pass returns 0 right after the stream is drained,
    whatever the stop reason and the approvals of the turn. *)
Theorem completion_is_checked_before_stop_reason :
  forall prompt input env d w2,
    drainStreamWithResume (sendMessageStream input (world env)) = (d, w2) ->
    match lastAssistant (lines d) with
    | Some line =>
        exists pre post t,
          lines d = pre ++ line :: post /\ kind line = "assistant" /\
          text line = Some t /\
          Exists (fun c => isWhiteSpace c = false) (codePoints t) /\
          Forall PassedOver post
    | None => Forall PassedOver (lines d)
    end /\
    (forall line t,
       lastAssistant (lines d) = Some line -> text line = Some t ->
       checkForPromise (ralph env) t = true ->
       exists env',
         loopBody prompt input env = (Return 0, env') /\
         world env' = w2 /\ ralph env' = ralph env /\
         trace env' = trace env ++ [EvSend input; EvDrain d] /\
         (shouldContinue (ralph env) = true ->
          forall fuel cap, mainLoop (S fuel) prompt cap input env = (Exit 0, env'))).
Proof.
  intros prompt input env d w2 Hd. split; [apply lastAssistant_spec|].
  intros line t Hlast Ht Hcheck.
  assert (Hm : completionMatched (ralph env) d = true).
  { unfold completionMatched. rewrite Hlast, Ht. exact Hcheck. }
  eexists. split; [rewrite loopBody_run, Hd, Hm; reflexivity|].
  do 3 (split; [reflexivity|]).
  intros Hcont fuel cap. rewrite mainLoop_unfold, Hcont, loopBody_run, Hd, Hm.
  reflexivity.
Qed.

(** C7, amended: when a turn stops with [requires_approval], reports
    no approvals, and its text did not match the promise, the pass
    returns 2 right after the stream is drained: no permission check,
    no execution and no further message. *)
Theorem empty_approval_batch_fails :
  forall prompt input env d w2,
    drainStreamWithResume (sendMessageStream input (world env)) = (d, w2) ->
    completionMatched (ralph env) d = false ->
    stopReason d = "requires_approval" ->
    default [] (approvals d) = [] ->
    exists env',
      loopBody prompt input env = (Return 2, env') /\
      world env' = w2 /\ ralph env' = ralph env /\
      trace env' = trace env ++ [EvSend input; EvDrain d] /\
      (shouldContinue (ralph env) = true ->
       forall fuel cap, mainLoop (S fuel) prompt cap input env = (Exit 2, env')).
Proof.
  intros prompt input env d w2 Hd Hm Hs He.
  assert (Hrun : loopBody prompt input env =
            (Return 2,
             mkEnv w2 (ralph env) (trace env ++ [EvSend input; EvDrain d])
               (stderr env ++ ["Unexpected empty approvals array"]))).
  { rewrite loopBody_run, Hd, Hm, Hs, He.
    rewrite bool_decide_eq_true_2 by reflexivity. reflexivity. }
  eexists. split; [exact Hrun|]. do 3 (split; [reflexivity|]).
  intros Hcont fuel cap. rewrite mainLoop_unfold, Hcont, Hrun. reflexivity.
Qed.


(** X1: a turn that stops for any reason other than [requires_approval]
    and [end_turn], its text not matching the promise, ends the run with
    exit code 2 at once: nothing is retried, nothing further is sent. *)
Theorem other_stop_reason_fails :
  forall prompt input env d w2,
    drainStreamWithResume (sendMessageStream input (world env)) = (d, w2) ->
    completionMatched (ralph env) d = false ->
    stopReason d <> "requires_approval" ->
    stopReason d <> "end_turn" ->
    exists env',
      loopBody prompt input env = (Return 2, env') /\
      world env' = w2 /\ ralph env' = ralph env /\
      trace env' = trace env ++ [EvSend input; EvDrain d] /\
      (shouldContinue (ralph env) = true ->
       forall fuel cap, mainLoop (S fuel) prompt cap input env = (Exit 2, env')).
Proof.
  intros prompt input env d w2 Hd Hm Hs1 Hs2.
  assert (Hrun : loopBody prompt input env =
            (Return 2,
             mkEnv w2 (ralph env) (trace env ++ [EvSend input; EvDrain d])
               ((stderr env ++ [""]) ++
                ["❌ Error: " +:+ errorMessage (lines d) (stopReason d)]))).
  { rewrite loopBody_run, Hd, Hm.
    rewrite !bool_decide_eq_false_2 by assumption. reflexivity. }
  eexists. split; [exact Hrun|]. do 3 (split; [reflexivity|]).
  intros Hcont fuel cap. rewrite mainLoop_unfold, Hcont, Hrun. reflexivity.
Qed.

(** X2: a turn that stops with [end_turn], its text not matching the
    promise, advances the iteration counter by one, leaves every other
    field of the loop state as it was, and continues with the
    continuation reminder for the new iteration followed by the original
    prompt. *)
Theorem end_turn_advances :
  forall prompt input env d w2,
    drainStreamWithResume (sendMessageStream input (world env)) = (d, w2) ->
    completionMatched (ralph env) d = false ->
    stopReason d = "end_turn" ->
    exists env',
      loopBody prompt input env =
        (Continue
           [UserMessage
              (buildRalphContinuationReminder (incrementIteration (ralph env))
               +:+ nl +:+ nl +:+ prompt)], env') /\
      world env' = w2 /\
      currentIteration (ralph env') = currentIteration (ralph env) + 1 /\
      isActive (ralph env') = isActive (ralph env) /\
      isYolo (ralph env') = isYolo (ralph env) /\
      originalPrompt (ralph env') = originalPrompt (ralph env) /\
      completionPromise (ralph env') = completionPromise (ralph env) /\
      maxIterations (ralph env') = maxIterations (ralph env) /\
      trace env' = trace env ++ [EvSend input; EvDrain d].
Proof.
  intros prompt input env d w2 Hd Hm Hs.
  eexists. split.
  - rewrite loopBody_run, Hd, Hm, Hs.
    rewrite bool_decide_eq_false_2 by discriminate.
    rewrite bool_decide_eq_true_2 by reflexivity. reflexivity.
  - repeat split.
Qed.

(** ** Arbitration of a batch *)


(** ** Leaving the handler *)

Lemma clearPendingApprovals_unfold fuel env :
  clearPendingApprovals (S fuel) env =
    let (res, w1) := getResumeData (world env) in
    if (length (default [] res) =? 0)%nat then
      (true, mkEnv w1 (ralph env) (trace env ++ [EvRetrieve res]) (stderr env))
    else
      let ds := map (fun a => Deny a ralphDenyReason) (default [] res) in
      let (results, w2) := executeApprovalBatch ds w1 in
      let (d, w3) :=
        drainStreamWithResume (sendMessageStream [ApprovalCreate results] w2) in
      clearPendingApprovals fuel
        (mkEnv w3 (ralph env)
           (trace env ++
            [EvRetrieve res; EvExecute ds results; EvSend [ApprovalCreate results]; EvDrain d])
           (stderr env)).
Proof.
  cbn [clearPendingApprovals]. unfold retrievePending, execute, send, drain. unfold_m.
  destruct (getResumeData (world env)) as [res w1]. cbn [world ralph trace stderr].
  destruct (length (default [] res) =? 0)%nat; [reflexivity|].
  cbv beta iota zeta. cbn [world ralph trace stderr].
  destruct (executeApprovalBatch _ w1) as [results w2].
  cbn [world ralph trace stderr].
  destruct (drainStreamWithResume _) as [d w3].
  cbn [world ralph trace stderr].
  rewrite <- !app_assoc. reflexivity.
Qed.

Lemma clearPendingApprovals_run fuel : forall env,
  exists clearing,
    ClearingTrace clearing /\
    ralph (snd (clearPendingApprovals fuel env)) = ralph env /\
    if fst (clearPendingApprovals fuel env)
    then exists res,
           default [] res = [] /\
           trace (snd (clearPendingApprovals fuel env))
           = trace env ++ clearing ++ [EvRetrieve res]
    else trace (snd (clearPendingApprovals fuel env)) = trace env ++ clearing.
Proof.
  induction fuel as [|fuel IH]; intros env.
  - exists []. split; [constructor|]. split; [reflexivity|].
    cbn. rewrite app_nil_r. reflexivity.
  - rewrite clearPendingApprovals_unfold.
    destruct (getResumeData (world env)) as [res w1].
    destruct (default [] res) as [|a pending] eqn:Hp.
    + exists []. split; [constructor|]. split; [reflexivity|].
      cbn. exists res. auto.
    + change (length (a :: pending) =? 0)%nat with false. cbv iota zeta.
      destruct (executeApprovalBatch _ w1) as [results w2].
      destruct (drainStreamWithResume _) as [d w3].
      match goal with |- context [clearPendingApprovals fuel ?e] =>
        destruct (IH e) as (clearing & Hc & Hr & Ht); set (e1 := e) in * end.
      exists ([EvRetrieve res;
               EvExecute (map (fun a => Deny a ralphDenyReason) (a :: pending)) results;
               EvSend [ApprovalCreate results]; EvDrain d] ++ clearing).
      split; [|split].
      * constructor; [|exact Hc].
        apply denial_round; [exact Hp|discriminate].
      * rewrite Hr. reflexivity.
      * destruct (fst (clearPendingApprovals fuel e1)).
        -- destruct Ht as (res' & He & Ht). exists res'. split; [exact He|].
           rewrite Ht. subst e1. cbn [trace]. rewrite <- !app_assoc. reflexivity.
        -- rewrite Ht. subst e1. cbn [trace]. rewrite <- !app_assoc. reflexivity.
Qed.

Lemma clearPendingApprovals_performs fuel : forall env,
  exists more,
    trace (snd (clearPendingApprovals fuel env)) = trace env ++ more /\
    Performs (world env) more (world (snd (clearPendingApprovals fuel env))).
Proof.
  induction fuel as [|fuel IH]; intros env.
  - exists []. cbn. rewrite app_nil_r. split; [reflexivity|constructor].
  - rewrite clearPendingApprovals_unfold.
    destruct (getResumeData (world env)) as [res w1] eqn:Hr.
    destruct (length (default [] res) =? 0)%nat.
    + exists [EvRetrieve res]. split; [reflexivity|].
      eapply performs_retrieve; [exact Hr|constructor].
    + cbv zeta.
      destruct (executeApprovalBatch _ w1) as [results w2] eqn:He.
      destruct (drainStreamWithResume _) as [d w3] eqn:Hd.
      match goal with |- context [clearPendingApprovals fuel ?e] =>
        destruct (IH e) as (more & Ht & Hp);
        destruct (clearPendingApprovals fuel e) as [cleared env1] end.
      cbn [snd trace world] in *.
      eexists. split; [rewrite Ht, <- app_assoc; reflexivity|].
      eapply Performs_app; [|exact Hp].
      eapply performs_retrieve; [exact Hr|].
      eapply performs_execute; [exact He|].
      apply performs_send. eapply performs_drain; [exact Hd|constructor].
Qed.

Lemma handleRalphCommand_unfold fuel prompt p cap yolo env :
  exists err,
    handleRalphCommand fuel prompt p cap yolo env =
      let st := activate prompt p cap yolo (ralph env) in
      let (cleared, env1) :=
        clearPendingApprovals fuel
          (mkEnv (prepareAgent (world env)) st (trace env) err) in
      if cleared : bool
      then mainLoop fuel prompt cap (initialInput st prompt) env1
      else (OutOfFuel, env1).
Proof.
  unfold handleRalphCommand. unfold_m. cbv beta iota zeta.
  cbn [world ralph trace stderr].
  match goal with
  | |- context [clearPendingApprovals fuel (mkEnv _ _ _ ?e)] => exists e
  end.
  destruct (clearPendingApprovals fuel _) as [[|] env1]; reflexivity.
Qed.

(** C9, amended: [deactivate] resets the loop state to the zero state
    and is idempotent, but the handler never calls it: however a run
    ends, the loop state it leaves is the activated state with its
    iteration counter advanced some number of times, still active. *)
Theorem handler_leaves_state_active :
  (forall st,
     deactivate st = defaultState /\ deactivate (deactivate st) = deactivate st) /\
  (forall fuel prompt p cap yolo env,
     exists n,
       ralph (snd (handleRalphCommand fuel prompt p cap yolo env))
       = Nat.iter n incrementIteration (activate prompt p cap yolo (ralph env)) /\
       isActive (ralph (snd (handleRalphCommand fuel prompt p cap yolo env))) = true /\
       ralph (snd (handleRalphCommand fuel prompt p cap yolo env)) <> defaultState).
Proof.
  split; [intros st; split; reflexivity|].
  intros fuel prompt p cap yolo env.
  assert (H : exists n,
            ralph (snd (handleRalphCommand fuel prompt p cap yolo env))
            = Nat.iter n incrementIteration (activate prompt p cap yolo (ralph env))).
  { destruct (handleRalphCommand_unfold fuel prompt p cap yolo env) as [err ->].
    cbv zeta.
    match goal with |- context [clearPendingApprovals fuel ?e] =>
      destruct (clearPendingApprovals_run fuel e) as (clearing & _ & Hr & _) end.
    destruct (clearPendingApprovals fuel _) as [[|] env1]; cbn [snd fst ralph] in *.
    - destruct (mainLoop_ralph fuel prompt cap
                  (initialInput (activate prompt p cap yolo (ralph env)) prompt) env1)
        as [n Hn].
      exists n. rewrite Hn, Hr. reflexivity.
    - exists 0%nat. exact Hr. }
  destruct H as [n Hn]. exists n. split; [exact Hn|].
  destruct (RalphModeFacts.iter_increment_fields n (activate prompt p cap yolo (ralph env)))
    as (Ha & _).
  rewrite Hn. split; [rewrite Ha; reflexivity|].
  intros E. rewrite E in Ha. discriminate.
Qed.

Lemma handleRalphCommand_performs fuel prompt p cap yolo env :
  exists more,
    trace (snd (handleRalphCommand fuel prompt p cap yolo env)) = trace env ++ more /\
    Performs (prepareAgent (world env)) more
      (world (snd (handleRalphCommand fuel prompt p cap yolo env))).
Proof.
  destruct (handleRalphCommand_unfold fuel prompt p cap yolo env) as [err ->].
  cbv zeta.
  match goal with |- context [clearPendingApprovals fuel ?e] =>
    destruct (clearPendingApprovals_performs fuel e) as (more1 & H1 & Hp1) end.
  destruct (clearPendingApprovals fuel _) as [[|] env1]; cbn [snd fst trace world] in *.
  - destruct (mainLoop_performs fuel prompt cap
                (initialInput (activate prompt p cap yolo (ralph env)) prompt) env1)
      as (more2 & H2 & Hp2).
    exists (more1 ++ more2). split; [rewrite H2, H1, <- app_assoc; reflexivity|].
    eapply Performs_app; eassumption.
  - exists more1. auto.
Qed.

(** ** Clearing pending approvals before the first task turn *)





End Facts.

(** ** Runs on the scripted platform *)

Import Scripted.

Lemma cap_three_exhausts_after_two_turns_witness :
  exists env',
    @mainLoop demo 2 "task" 3 (firstInput (PromiseText "Never matched") 3)
      (running (PromiseText "Never matched") 3 [endTurn "a"; endTurn "b"; endTurn "c"])
    = (Exit 1, env') /\
    world env' = mkScript [endTurn "c"] [] /\
    currentIteration (ralph env') = 3 /\
    trace env' =
      [] ++
      [EvSend (firstInput (PromiseText "Never matched") 3); EvDrain (endTurn "a");
       EvSend
         [UserMessage
            (buildRalphContinuationReminder
               (incrementIteration (activated (PromiseText "Never matched") 3))
             +:+ nl +:+ nl +:+ "task")];
       EvDrain (endTurn "b")].
Proof.
  apply (@cap_three_exhausts_after_two_turns demo "task"
           (firstInput (PromiseText "Never matched") 3)
           (running (PromiseText "Never matched") 3 [endTurn "a"; endTurn "b"; endTurn "c"])
           0%nat (endTurn "a") (mkScript [endTurn "b"; endTurn "c"] [])
           (endTurn "b") (mkScript [endTurn "c"] []));
    reflexivity.
Defined.

(** A cap of one sends no turn at all. *)
Example cap_one_runs_no_turn :
  let r := @handleRalphCommand demo 5 "task" (PromiseText "Never matched") 1 false
             (start [endTurn "a"] []) in
  fst r = Exit 1 /\ world (snd r) = mkScript [endTurn "a"] [] /\
  trace (snd r) = [EvRetrieve None].
Proof. vm_compute. repeat split. Qed.

(** The whole handler on three scripted [end_turn] turns with a cap of
    three: the third turn is left in the script. *)
Example cap_three_full_run :
  let r := @handleRalphCommand demo 5 "task" (PromiseText "Never matched") 3 false
             (start [endTurn "a"; endTurn "b"; endTurn "c"] []) in
  fst r = Exit 1 /\ world (snd r) = mkScript [endTurn "c"] [] /\
  currentIteration (ralph (snd r)) = 3 /\
  last (stderr (snd r)) = Some "⚠️  Max iterations (3) reached".
Proof. vm_compute. repeat split. Qed.

Lemma other_stop_reason_fails_witness :
  exists env',
    @loopBody demo "task" (firstInput (PromiseText "DONE") 0)
      (running (PromiseText "DONE") 0 [failed; endTurn "later"])
    = (Return 2, env') /\
    world env' = mkScript [endTurn "later"] [] /\
    ralph env' = activated (PromiseText "DONE") 0 /\
    trace env' = [] ++ [EvSend (firstInput (PromiseText "DONE") 0); EvDrain failed] /\
    (shouldContinue (activated (PromiseText "DONE") 0) = true ->
     forall fuel cap,
       @mainLoop demo (S fuel) "task" cap (firstInput (PromiseText "DONE") 0)
         (running (PromiseText "DONE") 0 [failed; endTurn "later"])
       = (Exit 2, env')).
Proof.
  apply (@other_stop_reason_fails demo "task" (firstInput (PromiseText "DONE") 0)
           (running (PromiseText "DONE") 0 [failed; endTurn "later"])
           failed (mkScript [endTurn "later"] []));
    (reflexivity || discriminate).
Defined.

Lemma end_turn_advances_witness :
  exists env',
    @loopBody demo "task" (firstInput (PromiseText "DONE") 0)
      (running (PromiseText "DONE") 0 [endTurn "working"])
    = (Continue
         [UserMessage
            (buildRalphContinuationReminder
               (incrementIteration (activated (PromiseText "DONE") 0))
             +:+ nl +:+ nl +:+ "task")], env') /\
    world env' = mkScript [] [] /\
    currentIteration (ralph env') = 1 + 1 /\
    isActive (ralph env') = true /\
    isYolo (ralph env') = false /\
    originalPrompt (ralph env') = "task" /\
    completionPromise (ralph env') = Some "DONE" /\
    maxIterations (ralph env') = 0 /\
    trace env' =
      [] ++ [EvSend (firstInput (PromiseText "DONE") 0); EvDrain (endTurn "working")].
Proof.
  apply (@end_turn_advances demo "task" (firstInput (PromiseText "DONE") 0)
           (running (PromiseText "DONE") 0 [endTurn "working"])
           (endTurn "working") (mkScript [] []));
    reflexivity.
Defined.

(** C2, as stated, fails: the last assistant line whose text is not the
    empty string may be blank; the handler skips it and reads the line
    before, here completing a run whose last non-empty assistant line
    holds no promise. *)
Lemma last_assistant_line_counterexample :
  let ls := [assistant "<promise>DONE</promise>"; assistant " "] in
  lastNonEmptyAssistant ls = Some (assistant " ") /\
  lastAssistant ls = Some (assistant "<promise>DONE</promise>") /\
  checkForPromise (activated (PromiseText "DONE") 0) " " = false /\
  fst (@handleRalphCommand demo 5 "task" (PromiseText "DONE") 0 false
         (start [mkDrained ls "end_turn" None] [])) = Exit 0.
Proof. vm_compute. repeat split. Qed.

(** The white space the selection trims is that of ECMAScript: a line
    holding only U+00A0, U+FEFF, U+2028 or U+3000 is passed over, a line
    holding a check mark is read; a run whose last line is U+00A0 after
    a line with the promise completes. *)
Example unicode_white_space_is_passed_over :
  let nbsp := String "194" (String "160" "") in
  let bom := String "239" (String "187" (String "191" "")) in
  let ls := String "226" (String "128" (String "168" "")) in
  let wide := String "227" (String "128" (String "128" "")) in
  codePoints nbsp = [160%N] /\ codePoints bom = [65279%N] /\
  codePoints ls = [8232%N] /\ codePoints wide = [12288%N] /\
  isAssistantText (assistant (nbsp +:+ " " +:+ bom +:+ ls +:+ wide)) = false /\
  codePoints "✓" = [10003%N] /\ isAssistantText (assistant "✓") = true /\
  lastAssistant [assistant "<promise>DONE</promise>"; assistant nbsp]
  = Some (assistant "<promise>DONE</promise>") /\
  fst (@handleRalphCommand demo 5 "task" (PromiseText "DONE") 0 false
         (start [mkDrained [assistant "<promise>DONE</promise>"; assistant nbsp]
                   "end_turn" None] [])) = Exit 0.
Proof. vm_compute. repeat split. Qed.

Lemma completion_is_checked_before_stop_reason_witness :
  exists env',
    @loopBody demo "task" (firstInput (PromiseText "DONE") 0)
      (running (PromiseText "DONE") 0 [needsApproval "<promise>DONE</promise>" [writeFile]])
    = (Return 0, env') /\
    world env' = mkScript [] [] /\
    ralph env' = activated (PromiseText "DONE") 0 /\
    trace env' =
      [] ++ [EvSend (firstInput (PromiseText "DONE") 0);
             EvDrain (needsApproval "<promise>DONE</promise>" [writeFile])] /\
    (shouldContinue (activated (PromiseText "DONE") 0) = true ->
     forall fuel cap,
       @mainLoop demo (S fuel) "task" cap (firstInput (PromiseText "DONE") 0)
         (running (PromiseText "DONE") 0
            [needsApproval "<promise>DONE</promise>" [writeFile]])
       = (Exit 0, env')).
Proof.
  apply (proj2 (@completion_is_checked_before_stop_reason demo "task"
                  (firstInput (PromiseText "DONE") 0)
                  (running (PromiseText "DONE") 0
                     [needsApproval "<promise>DONE</promise>" [writeFile]])
                  (needsApproval "<promise>DONE</promise>" [writeFile])
                  (mkScript [] []) eq_refl)
           (assistant "<promise>DONE</promise>") "<promise>DONE</promise>");
    reflexivity.
Defined.

(** C7, as stated, fails: a turn that stops with [requires_approval] and
    an empty batch while its text matches the promise ends the run with
    exit code 0, not 2. *)
Lemma empty_approval_batch_counterexample :
  fst (@handleRalphCommand demo 5 "task" (PromiseText "DONE") 0 false
         (start [needsApproval "<promise>DONE</promise>" []] [])) = Exit 0.
Proof. vm_compute. reflexivity. Qed.

Lemma empty_approval_batch_fails_witness :
  exists env',
    @loopBody demo "task" (firstInput (PromiseText "DONE") 0)
      (running (PromiseText "DONE") 0 [needsApproval "working" []; endTurn "later"])
    = (Return 2, env') /\
    world env' = mkScript [endTurn "later"] [] /\
    ralph env' = activated (PromiseText "DONE") 0 /\
    trace env' =
      [] ++ [EvSend (firstInput (PromiseText "DONE") 0);
             EvDrain (needsApproval "working" [])] /\
    (shouldContinue (activated (PromiseText "DONE") 0) = true ->
     forall fuel cap,
       @mainLoop demo (S fuel) "task" cap (firstInput (PromiseText "DONE") 0)
         (running (PromiseText "DONE") 0 [needsApproval "working" []; endTurn "later"])
       = (Exit 2, env')).
Proof.
  apply (@empty_approval_batch_fails demo "task" (firstInput (PromiseText "DONE") 0)
           (running (PromiseText "DONE") 0 [needsApproval "working" []; endTurn "later"])
           (needsApproval "working" []) (mkScript [endTurn "later"] []));
    reflexivity.
Defined.


(** A run whose first turn asks to approve a call with the arguments
    "null" for a tool with a required key: the permission is checked,
    nothing is executed, no further message is sent, and the exception
    leaves the handler. *)
Example arbitration_throws_out_of_the_handler :
  let r := @handleRalphCommand demo 5 "task" (PromiseText "DONE") 0 false
             (start [needsApproval "working" [readFileNull; readFile];
                     endTurn "<promise>DONE</promise>"] []) in
  fst r = Thrown TypeError /\
  world (snd r) = mkScript [endTurn "<promise>DONE</promise>"] [] /\
  trace (snd r) =
    [EvRetrieve None; EvSend (firstInput (PromiseText "DONE") 0);
     EvDrain (needsApproval "working" [readFileNull; readFile]);
     EvCheckPermission "read_file" JNull].
Proof. vm_compute. repeat split. Qed.




(** The example of the design document: an empty argument object for a
    tool that requires [path] and [content] yields one denial naming
    both keys. *)
Example missing_both_parameters :
  fst (@decideApprovals demo [writeFile] [] (start [] [])) = Normal [writeFileDenied].
Proof. vm_compute. reflexivity. Qed.

(** Properties of an array: the index of an item that is not null, the
    length and an inherited name are provided; the index of a null item
    is missing. *)
Example array_properties :
  @isMissing demo (JArr [JNull; JBool true]) "0" = Normal true /\
  @isMissing demo (JArr [JNull; JBool true]) "1" = Normal false /\
  @isMissing demo (JArr [JNull; JBool true]) "2" = Normal true /\
  @isMissing demo (JArr [JNull; JBool true]) "01" = Normal true /\
  @isMissing demo (JArr [JNull; JBool true]) "length" = Normal false /\
  @isMissing demo (JArr [JNull; JBool true]) "push" = Normal false /\
  @isMissing demo (JArr [JNull; JBool true]) "valueOf" = Normal false /\
  @isMissing demo emptyObject "push" = Normal true /\
  @isMissing demo (JStr "text") "length" = Throw TypeError.
Proof. vm_compute. repeat split. Qed.

(** C9, as stated, fails: after a run that ends with exit code 0, one
    that ends with 1 and one that ends with 2, the loop state is still
    active; [deactivate] was not called. *)
Lemma handler_never_deactivates_counterexample :
  let done := @handleRalphCommand demo 5 "task" (PromiseText "DONE") 3 false
                (start [endTurn "<promise>DONE</promise>"] []) in
  let capped := @handleRalphCommand demo 5 "task" (PromiseText "DONE") 3 false
                  (start [endTurn "a"; endTurn "b"; endTurn "c"] []) in
  let broken := @handleRalphCommand demo 5 "task" (PromiseText "DONE") 3 false
                  (start [failed] []) in
  (fst done = Exit 0 /\ isActive (ralph (snd done)) = true /\
   ralph (snd done) <> defaultState) /\
  (fst capped = Exit 1 /\ isActive (ralph (snd capped)) = true /\
   ralph (snd capped) <> defaultState) /\
  (fst broken = Exit 2 /\ isActive (ralph (snd broken)) = true /\
   ralph (snd broken) <> defaultState).
Proof. vm_compute. repeat split; discriminate. Qed.

(** A run that finds one pending approval: the denial is executed and
    sent, its answer is drained from the script, the next retrieval
    reports none, and the task turn follows; both scripted turns and the
    queue of pending approvals are used up. *)
Example clearing_reaches_the_platform :
  let r := @handleRalphCommand demo 5 "task" (PromiseText "DONE") 3 false
             (start [endTurn "denied"; endTurn "<promise>DONE</promise>"]
                [Some [bash]]) in
  fst r = Exit 0 /\
  world (snd r) = mkScript [] [] /\
  trace (snd r) =
    clearingRound ++
    [EvRetrieve None; EvSend (firstInput (PromiseText "DONE") 3);
     EvDrain (endTurn "<promise>DONE</promise>")].
Proof. vm_compute. repeat split. Qed.


End RalphCliFacts.

(* ===================================================================== *)
(** * Properties of whole runs of the handler *)
(* ===================================================================== *)

Module RalphRunFacts.
Import JsString JsStringFacts RalphMode RalphCli RalphSpec RalphProtocol.
Import RalphCliFacts.

Section Facts.
Context `{P : Platform}.

(** ** What the exit codes mean *)

Lemma mainLoop_exit fuel prompt cap : forall input env code env',
  mainLoop fuel prompt cap input env = (Exit code, env') ->
  (code = 1 /\ shouldContinue (ralph env') = false) \/
  (exists pre input' d,
     trace env' = pre ++ [EvSend input'; EvDrain d] /\
     ((code = 0 /\ completionMatched (ralph env') d = true) \/
      (code = 2 /\ completionMatched (ralph env') d = false /\
       stopReason d <> "end_turn" /\
       (stopReason d = "requires_approval" -> default [] (approvals d) = [])))).
Proof.
  induction fuel as [|fuel IH]; intros input env code env' Hrun;
    rewrite mainLoop_unfold in Hrun;
    destruct (shouldContinue (ralph env)) eqn:Hc.
  - discriminate.
  - injection Hrun as <- <-. left. auto.
  - rewrite loopBody_run in Hrun.
    destruct (drainStreamWithResume _) as [d w2].
    destruct (completionMatched (ralph env) d) eqn:Hm.
    { injection Hrun as <- <-. right. exists (trace env), input, d. auto. }
    destruct (bool_decide (stopReason d = "requires_approval")) eqn:Hs.
    + cbv zeta in Hrun.
      destruct (length (default [] (approvals d)) =? 0)%nat eqn:Hl.
      * injection Hrun as <- <-. right. exists (trace env), input, d.
        split; [reflexivity|]. right. apply bool_decide_eq_true in Hs.
        repeat split; [exact Hm|rewrite Hs; discriminate|].
        intros _. apply Nat.eqb_eq in Hl. destruct (default [] (approvals d));
          [reflexivity|discriminate].
      * destruct (arbitrateBatch _ w2) as [[[ds|e] checked] w3]; [|discriminate].
        destruct (executeApprovalBatch ds w3) as [results w4].
        exact (IH _ _ _ _ Hrun).
    + destruct (bool_decide (stopReason d = "end_turn")) eqn:He; cbn [negb] in Hrun.
      * exact (IH _ _ _ _ Hrun).
      * injection Hrun as <- <-. right. exists (trace env), input, d.
        split; [reflexivity|]. right.
        apply bool_decide_eq_false in He. apply bool_decide_eq_false in Hs.
        repeat split; [exact Hm|exact He|]. intros E. contradiction.
  - injection Hrun as <- <-. left. auto.
Qed.

(** X3: the handler leaves with 0, 1 or 2 only. With 0, the last thing it
    did was drain a turn whose text the completion check accepted; with 1,
    the loop condition had become false; with 2, the last thing it did was
    drain a turn whose text did not match and whose stop reason was not
    [end_turn] and, when it was [requires_approval], came with no
    approvals. *)
Theorem exit_code_meaning :
  forall fuel prompt p cap yolo env code env',
    handleRalphCommand fuel prompt p cap yolo env = (Exit code, env') ->
    (code = 1 /\ shouldContinue (ralph env') = false) \/
    (exists pre input d,
       trace env' = pre ++ [EvSend input; EvDrain d] /\
       ((code = 0 /\ completionMatched (ralph env') d = true) \/
        (code = 2 /\ completionMatched (ralph env') d = false /\
         stopReason d <> "end_turn" /\
         (stopReason d = "requires_approval" -> default [] (approvals d) = [])))).
Proof.
  intros fuel prompt p cap yolo env code env' Hrun.
  destruct (handleRalphCommand_unfold fuel prompt p cap yolo env) as [err Hu].
  rewrite Hu in Hrun. cbv zeta in Hrun.
  destruct (clearPendingApprovals fuel _) as [[|] env1]; [|discriminate].
  exact (mainLoop_exit _ _ _ _ _ _ _ Hrun).
Qed.

(** ** What is approved *)

(** X4: every decision is about the approval it was made for, and one
    round of arbitration ends in one of three ways. The call is approved
    exactly when the permission check allows the tool and the parsed
    arguments provide every required key: as an own property that is not
    null or as a property the value inherits. The round throws a
    [TypeError] exactly when the tool is allowed, some key is required
    and the arguments parsed to a value that is not an object. In every
    other case the call is denied. *)
Theorem approved_iff_allowed_and_complete :
  forall a env,
    let parsedArgs := safeJsonParseOr (toolArgs a) emptyObject in
    let permission := fst (checkToolPermission (toolName a) parsedArgs (world env)) in
    let approves :=
      decision permission = allow /\
      Forall (Provides parsedArgs) (requiredOf (toolName a)) in
    let throws :=
      decision permission = allow /\ requiredOf (toolName a) <> [] /\
      isObject parsedArgs = false in
    (forall d, fst (decideApproval a env) = Normal d -> decisionApproval d = a) /\
    (fst (decideApproval a env) = Normal (Approve a) <-> approves) /\
    (fst (decideApproval a env) = Throw TypeError <-> throws) /\
    ((exists reason, fst (decideApproval a env) = Normal (Deny a reason)) <->
     ~ approves /\ ~ throws).
Proof.
  intros a env parsedArgs permission approves throws.
  assert (Hp : parsedArgs = parsedArgsOf a) by reflexivity.
  subst approves throws permission. rewrite Hp. clear Hp parsedArgs.
  rewrite decideApproval_run.
  destruct (checkToolPermission _ _ _) as [perm w]. cbn [fst].
  set (r := arbitrate perm (parsedArgsOf a) (requiredOf (toolName a)) a).
  assert (Happrove : r = Normal (Approve a) <->
            decision perm = allow /\
            Forall (Provides (parsedArgsOf a)) (requiredOf (toolName a))).
  { subst r. rewrite <- nothing_missing. unfold arbitrate.
    destruct (decision perm).
    - destruct (filterThrowing _ _) as [[|k [|k' m]]|e];
        (split; [intros H; split; (reflexivity || discriminate)
                |intros [_ H]; (reflexivity || discriminate)]).
    - split; [discriminate|intros [? _]; discriminate].
    - split; [discriminate|intros [? _]; discriminate]. }
  assert (Hthrow : r = Throw TypeError <->
            decision perm = allow /\ requiredOf (toolName a) <> [] /\
            isObject (parsedArgsOf a) = false).
  { subst r. rewrite arbitrate_throws. split; [intros (_ & ? & ? & ?)|]; auto. }
  assert (Hcases : r = Normal (Approve a) \/ (exists reason, r = Normal (Deny a reason))
                   \/ r = Throw TypeError).
  { subst r. unfold arbitrate. destruct (decision perm); eauto.
    destruct (filterThrowing _ _) as [[|k [|k' m]]|[]]; eauto. }
  split; [intros d Hd; exact (arbitrate_approval _ _ _ _ _ Hd)|].
  split; [exact Happrove|]. split; [exact Hthrow|].
  rewrite <- Happrove, <- Hthrow. split.
  - intros [reason ->]. split; discriminate.
  - intros [Hna Hnt]. destruct Hcases as [H|[H|H]]; [contradiction|exact H|contradiction].
Qed.

(** ** The iteration counter counts the turns that ended *)

Lemma completionMatched_same_promise st st' d :
  completionPromise st = completionPromise st' ->
  completionMatched st d = completionMatched st' d.
Proof.
  intros H. unfold completionMatched, checkForPromise. rewrite H. reflexivity.
Qed.

Lemma advancing_same_promise st st' :
  completionPromise st = completionPromise st' ->
  forall l, List.filter (advancing st) l = List.filter (advancing st') l.
Proof.
  intros H l. apply List.filter_ext. intros [| | | |d]; try reflexivity.
  simpl. rewrite (completionMatched_same_promise st st' d H). reflexivity.
Qed.

Lemma advancing_checkEvents st pending :
  List.filter (advancing st) (checkEvents pending) = [].
Proof. induction pending as [|a rest IH]; [reflexivity|exact IH]. Qed.

Lemma mainLoop_counter :
  forall fuel prompt cap input env,
    exists more,
      trace (snd (mainLoop fuel prompt cap input env)) = trace env ++ more /\
      currentIteration (ralph (snd (mainLoop fuel prompt cap input env)))
      = currentIteration (ralph env)
        + Z.of_nat (length (List.filter (advancing (ralph env)) more)).
Proof.
  induction fuel as [|fuel IH]; intros prompt cap input env;
    rewrite mainLoop_unfold; destruct (shouldContinue (ralph env));
    try (exists []; cbn [snd trace ralph]; rewrite app_nil_r;
         repeat split; simpl; lia).
  rewrite loopBody_run.
  destruct (drainStreamWithResume _) as [d w2].
  destruct (completionMatched (ralph env) d) eqn:Hm.
  { exists [EvSend input; EvDrain d]. cbn [snd trace ralph]. simpl.
    rewrite Hm, andb_false_r. repeat split; simpl; lia. }
  destruct (bool_decide (stopReason d = "requires_approval")) eqn:Hs.
  - apply bool_decide_eq_true in Hs. cbv zeta.
    destruct (length (default [] (approvals d)) =? 0)%nat.
    { exists [EvSend input; EvDrain d]. cbn [snd trace ralph]. simpl.
      rewrite Hm, andb_true_r, Hs, bool_decide_eq_false_2 by discriminate.
      repeat split; simpl; lia. }
    destruct (arbitrateBatch _ w2) as [[[ds|e] checked] w3].
    + destruct (executeApprovalBatch ds w3) as [results w4].
      match goal with |- context [mainLoop fuel prompt cap ?i ?e] =>
        destruct (IH prompt cap i e) as (more & Ht & Hc);
        destruct (mainLoop fuel prompt cap i e) as [out env'] end.
      cbn [snd trace ralph] in *.
      exists ([EvSend input; EvDrain d] ++
              checkEvents checked ++ [EvExecute ds results] ++ more).
      split; [rewrite Ht, <- !List.app_assoc; reflexivity|].
      rewrite Hc. rewrite !List.filter_app, advancing_checkEvents. simpl.
      rewrite Hm, andb_true_r, Hs, bool_decide_eq_false_2 by discriminate.
      reflexivity.
    + exists ([EvSend input; EvDrain d] ++ checkEvents checked).
      cbn [snd trace ralph].
      split; [rewrite <- !List.app_assoc; reflexivity|].
      rewrite !List.filter_app, advancing_checkEvents. simpl.
      rewrite Hm, andb_true_r, Hs, bool_decide_eq_false_2 by discriminate.
      simpl. lia.
  - destruct (bool_decide (stopReason d = "end_turn")) eqn:He; cbn [negb].
    + match goal with |- context [mainLoop fuel prompt cap ?i ?e] =>
        destruct (IH prompt cap i e) as (more & Ht & Hc);
        destruct (mainLoop fuel prompt cap i e) as [out env'] end.
      cbn [snd trace ralph] in *.
      exists ([EvSend input; EvDrain d] ++ more).
      split; [rewrite Ht, <- !List.app_assoc; reflexivity|].
      rewrite Hc.
      rewrite (advancing_same_promise (incrementIteration (ralph env)) (ralph env))
        by reflexivity.
      simpl. rewrite Hm, He. simpl. lia.
    + exists [EvSend input; EvDrain d]. cbn [snd trace ralph]. simpl.
      rewrite Hm, He. repeat split; simpl; lia.
Qed.

(** X5: over the main loop the iteration counter grows by exactly the
    number of drained turns that stopped with [end_turn] without matching
    the promise; turns that asked for approvals, the turn that ends the
    run and the permission checks and executions in between leave it
    alone, and no other field of the loop state changes. *)
Theorem iteration_counter_counts_end_turns :
  forall fuel prompt cap input env,
    exists more,
      trace (snd (mainLoop fuel prompt cap input env)) = trace env ++ more /\
      currentIteration (ralph (snd (mainLoop fuel prompt cap input env)))
      = currentIteration (ralph env)
        + Z.of_nat (length (List.filter (advancing (ralph env)) more)) /\
      isActive (ralph (snd (mainLoop fuel prompt cap input env))) = isActive (ralph env) /\
      isYolo (ralph (snd (mainLoop fuel prompt cap input env))) = isYolo (ralph env) /\
      originalPrompt (ralph (snd (mainLoop fuel prompt cap input env)))
      = originalPrompt (ralph env) /\
      completionPromise (ralph (snd (mainLoop fuel prompt cap input env)))
      = completionPromise (ralph env) /\
      maxIterations (ralph (snd (mainLoop fuel prompt cap input env)))
      = maxIterations (ralph env).
Proof.
  intros fuel prompt cap input env.
  destruct (mainLoop_counter fuel prompt cap input env) as (more & Ht & Hc).
  destruct (mainLoop_ralph fuel prompt cap input env) as [n Hn].
  destruct (RalphModeFacts.iter_increment_fields n (ralph env))
    as (Ha & Hy & Ho & Hp & Hx & _).
  exists more. split; [exact Ht|]. split; [exact Hc|].
  rewrite Hn. auto.
Qed.

(** ** The order of the calls *)

Lemma mainLoop_protocol fuel prompt cap : forall input env,
  exists more,
    trace (snd (mainLoop fuel prompt cap input env)) = trace env ++ more /\
    MainTrace input more.
Proof.
  induction fuel as [|fuel IH]; intros input env;
    rewrite mainLoop_unfold; destruct (shouldContinue (ralph env));
    try (exists []; cbn [snd trace]; rewrite app_nil_r; split;
         [reflexivity|constructor]).
  rewrite loopBody_run.
  destruct (drainStreamWithResume _) as [d w2].
  destruct (completionMatched (ralph env) d).
  { exists [EvSend input; EvDrain d]. split; [reflexivity|constructor]. }
  destruct (bool_decide (stopReason d = "requires_approval")) eqn:Hs.
  - apply bool_decide_eq_true in Hs. cbv zeta.
    destruct (length (default [] (approvals d)) =? 0)%nat eqn:Hl.
    { exists [EvSend input; EvDrain d]. split; [reflexivity|constructor]. }
    assert (Hne : default [] (approvals d) <> [])
      by (intros E; rewrite E in Hl; discriminate).
    destruct (arbitrateBatch _ w2) as [[[ds|e] checked] w3] eqn:Hb.
    + destruct (arbitrateBatch_normal _ _ _ _ _ Hb) as [-> Hmap].
      destruct (executeApprovalBatch ds w3) as [results w4].
      match goal with |- context [mainLoop fuel prompt cap ?i ?e] =>
        destruct (IH i e) as (more & Ht & Hmore);
        destruct (mainLoop fuel prompt cap i e) as [out env'] end.
      cbn [snd trace] in *.
      exists (EvSend input :: EvDrain d ::
              checkEvents (default [] (approvals d)) ++ EvExecute ds results :: more).
      split.
      * rewrite Ht, <- !List.app_assoc. reflexivity.
      * apply main_approval; assumption.
    + destruct (arbitrateBatch_throw _ _ _ _ _ Hb)
        as (before & a & after & Hsplit & -> & _ & Hreq & Hobj & _).
      exists (EvSend input :: EvDrain d :: checkEvents (before ++ [a])).
      cbn [snd trace]. split; [rewrite <- !List.app_assoc; reflexivity|].
      eapply main_raise; eassumption.
  - destruct (bool_decide (stopReason d = "end_turn")) eqn:He; cbn [negb].
    + apply bool_decide_eq_true in He.
      match goal with |- context [mainLoop fuel prompt cap ?i ?e] =>
        destruct (IH i e) as (more & Ht & Hmore);
        destruct (mainLoop fuel prompt cap i e) as [out env'] end.
      cbn [snd trace] in *.
      exists (EvSend input :: EvDrain d :: more).
      split; [rewrite Ht, <- !List.app_assoc; reflexivity|].
      eapply main_user; eassumption.
    + exists [EvSend input; EvDrain d]. split; [reflexivity|constructor].
Qed.

(** X6: the calls of a run come in a fixed order and are calls made on
    the platform. First the rounds that deny pending approvals, up to a
    retrieval that reports none. Then turns, each message drained before
    anything else is done. After a turn that asks for approvals come the
    permission checks of the pending approvals in order; when the
    arbitration completes, there is one check for each approval, one
    execution with one decision for each, and next the approval message
    carrying the results of that execution; when it throws, the checks
    stop at the approval at which it threw and nothing follows. A user
    message follows only a turn that stopped with [end_turn]. Each call
    is made in the world the call before left, returns what the log
    records, and the world the run leaves is the one the calls lead
    to. *)
Theorem calls_follow_protocol :
  forall fuel prompt p cap yolo env,
    exists clearing main,
      trace (snd (handleRalphCommand fuel prompt p cap yolo env))
      = trace env ++ clearing ++ main /\
      Performs (prepareAgent (world env)) (clearing ++ main)
        (world (snd (handleRalphCommand fuel prompt p cap yolo env))) /\
      ClearingTrace clearing /\
      (main = [] \/
       exists res rest,
         main = EvRetrieve res :: rest /\ default [] res = [] /\
         MainTrace (initialInput (activate prompt p cap yolo (ralph env)) prompt) rest).
Proof.
  intros fuel prompt p cap yolo env.
  destruct (handleRalphCommand_performs fuel prompt p cap yolo env)
    as (all & Hall & Hperf).
  revert Hall Hperf.
  destruct (handleRalphCommand_unfold fuel prompt p cap yolo env) as [err ->].
  cbv zeta.
  match goal with |- context [clearPendingApprovals fuel ?e] =>
    destruct (clearPendingApprovals_run fuel e) as (clearing & Hc & _ & Ht) end.
  destruct (clearPendingApprovals fuel _) as [[|] env1]; cbn [snd fst trace] in *;
    intros Hall Hperf.
  - destruct Ht as (res & He & Ht).
    destruct (mainLoop_protocol fuel prompt cap
                (initialInput (activate prompt p cap yolo (ralph env)) prompt) env1)
      as (more & Hm & Hmore).
    exists clearing, (EvRetrieve res :: more).
    assert (Heq : trace (snd (mainLoop fuel prompt cap
                    (initialInput (activate prompt p cap yolo (ralph env)) prompt) env1))
                  = trace env ++ clearing ++ EvRetrieve res :: more)
      by (rewrite Hm, Ht, <- !List.app_assoc; reflexivity).
    split; [exact Heq|]. split.
    + rewrite Heq in Hall. apply app_inv_head in Hall. rewrite Hall. exact Hperf.
    + split; [exact Hc|]. right. exists res, more. auto.
  - exists clearing, []. rewrite app_nil_r.
    split; [exact Ht|]. split; [|auto].
    rewrite Ht in Hall. apply app_inv_head in Hall. rewrite Hall. exact Hperf.
Qed.

(** ** The cap *)

Lemma shouldContinue_false_active st :
  isActive st = true -> shouldContinue st = false ->
  0 < maxIterations st /\ maxIterations st <= currentIteration st.
Proof.
  intros Hact Hc. unfold shouldContinue in Hc. rewrite Hact in Hc. cbn [negb] in Hc.
  destruct (0 <? maxIterations st) eqn:E1;
    destruct (maxIterations st <=? currentIteration st) eqn:E2;
    cbn [andb] in Hc; try discriminate. lia.
Qed.

Lemma shouldContinue_true_under st :
  shouldContinue st = true -> 0 < maxIterations st ->
  currentIteration st < maxIterations st.
Proof.
  intros Hc Hpos. apply RalphModeFacts.shouldContinue_spec in Hc as [_ [H|H]]; lia.
Qed.

Lemma mainLoop_cap fuel prompt cap : forall input env,
  isActive (ralph env) = true ->
  (0 < maxIterations (ralph env) ->
   currentIteration (ralph env) <= maxIterations (ralph env)) ->
  (0 < maxIterations (ralph env) ->
   currentIteration (ralph (snd (mainLoop fuel prompt cap input env)))
   <= maxIterations (ralph env)) /\
  (fst (mainLoop fuel prompt cap input env) = Exit 1 ->
   0 < maxIterations (ralph env) /\
   currentIteration (ralph (snd (mainLoop fuel prompt cap input env)))
   = maxIterations (ralph env)).
Proof.
  induction fuel as [|fuel IH]; intros input env Hact Hle;
    rewrite mainLoop_unfold; destruct (shouldContinue (ralph env)) eqn:Hc;
    cbn [fst snd ralph].
  - split; [exact Hle|discriminate].
  - destruct (shouldContinue_false_active _ Hact Hc). split; [exact Hle|]. intros _. lia.
  - rewrite loopBody_run.
    destruct (drainStreamWithResume _) as [d w2].
    destruct (completionMatched (ralph env) d).
    { cbn [fst snd ralph]. split; [exact Hle|discriminate]. }
    destruct (bool_decide (stopReason d = "requires_approval")).
    + cbv zeta. destruct (length (default [] (approvals d)) =? 0)%nat.
      { cbn [fst snd ralph]. split; [exact Hle|discriminate]. }
      destruct (arbitrateBatch _ w2) as [[[ds|e] checked] w3];
        [|cbn [fst snd ralph]; split; [exact Hle|discriminate]].
      destruct (executeApprovalBatch ds w3) as [results w4].
      match goal with |- context [mainLoop fuel prompt cap ?i ?e] =>
        exact (IH i e Hact Hle) end.
    + destruct (bool_decide (stopReason d = "end_turn")); cbn [negb].
      * match goal with |- context [mainLoop fuel prompt cap ?i ?e] =>
          pose proof (IH i e) as IHe end.
        cbn [ralph incrementIteration isActive maxIterations currentIteration] in IHe.
        apply IHe; [exact Hact|].
        intros Hpos. pose proof (shouldContinue_true_under _ Hc Hpos). lia.
      * cbn [fst snd ralph]. split; [exact Hle|discriminate].
  - destruct (shouldContinue_false_active _ Hact Hc). split; [exact Hle|]. intros _. lia.
Qed.

(** X9: the iteration counter never passes a positive cap, and the
    handler leaves with 1 only at the cap. Whatever the platform does,
    the counter a run leaves behind is one more than the number of turns
    of the main loop that stopped with [end_turn] without matching the
    promise (the turns that clear pending approvals do not count); with a
    cap of at least one it never exceeds the cap; and a run that returns
    1 had a cap of at least one and stopped with the counter equal to
    it, so after exactly [cap - 1] such turns. A cap that is not positive
    never gives 1. *)
Theorem exhaustion_exactly_at_cap :
  forall fuel prompt p cap yolo env,
    exists clearing main,
      trace (snd (handleRalphCommand fuel prompt p cap yolo env))
      = trace env ++ clearing ++ main /\
      ClearingTrace clearing /\
      currentIteration (ralph (snd (handleRalphCommand fuel prompt p cap yolo env)))
      = 1 + Z.of_nat (length (List.filter
                                (advancing (activate prompt p cap yolo (ralph env))) main)) /\
      (1 <= cap ->
       currentIteration (ralph (snd (handleRalphCommand fuel prompt p cap yolo env)))
       <= cap) /\
      (fst (handleRalphCommand fuel prompt p cap yolo env) = Exit 1 ->
       1 <= cap /\
       currentIteration (ralph (snd (handleRalphCommand fuel prompt p cap yolo env)))
       = cap /\
       Z.of_nat (length (List.filter
                           (advancing (activate prompt p cap yolo (ralph env))) main))
       = cap - 1).
Proof.
  intros fuel prompt p cap yolo env.
  destruct (handleRalphCommand_unfold fuel prompt p cap yolo env) as [err ->].
  cbv zeta.
  match goal with |- context [clearPendingApprovals fuel ?e] =>
    destruct (clearPendingApprovals_run fuel e) as (clearing & Hc & Hr & Ht) end.
  destruct (clearPendingApprovals fuel _) as [[|] env1]; cbn [snd fst trace ralph] in *.
  - destruct Ht as (res & He & Ht).
    set (input := initialInput (activate prompt p cap yolo (ralph env)) prompt).
    destruct (mainLoop_counter fuel prompt cap input env1)
      as (more & Hm & Hcount).
    destruct (mainLoop_cap fuel prompt cap input env1) as [Hbound Hexit];
      [rewrite Hr; reflexivity|rewrite Hr; simpl; lia|].
    rewrite Hr in Hcount, Hbound, Hexit.
    cbn [activate currentIteration maxIterations] in Hcount, Hbound, Hexit.
    exists clearing, (EvRetrieve res :: more).
    split; [rewrite Hm, Ht, <- !List.app_assoc; reflexivity|].
    split; [exact Hc|].
    assert (Hf : List.filter (advancing (activate prompt p cap yolo (ralph env)))
                   (EvRetrieve res :: more)
                 = List.filter (advancing (activate prompt p cap yolo (ralph env))) more)
      by reflexivity.
    rewrite Hf. split; [exact Hcount|]. split; [intros; apply Hbound; lia|].
    intros Hx. destruct (Hexit Hx). lia.
  - exists clearing, []. rewrite app_nil_r.
    split; [exact Ht|]. split; [exact Hc|]. rewrite Hr. simpl.
    split; [reflexivity|]. split; [intros; lia|discriminate].
Qed.

End Facts.

(** ** The reminders and the promise tags *)

Lemma mismatch_within_strip pat : forall s t,
  mismatch_within pat s = true -> strip_prefix_ci pat (s +:+ t) = None.
Proof.
  induction pat as [|p pat IH]; intros [|a s] t; simpl; try discriminate.
  destruct (ci_eqb p a); [apply IH|reflexivity].
Qed.

Lemma free_of_split pat s t :
  free_of pat s = true ->
  split_at_ci pat (s +:+ t) =
    match split_at_ci pat t with
    | Some (before, after) => Some (s +:+ before, after)
    | None => None
    end.
Proof.
  induction s as [|a s IH]; intros Hfree.
  - simpl. destruct (split_at_ci pat t) as [[? ?]|]; reflexivity.
  - cbn [free_of] in Hfree. apply andb_true_iff in Hfree as [Hm Hfree].
    rewrite split_at_ci_unfold, (mismatch_within_strip pat (String a s) t Hm).
    rewrite app_cons, (IH Hfree).
    destruct (split_at_ci pat t) as [[? ?]|]; reflexivity.
Qed.

Lemma lacks_free_of p pat s : lacks p s = true -> free_of (String p pat) s = true.
Proof.
  induction s as [|a s IH]; [reflexivity|]. cbn [lacks free_of mismatch_within].
  intros [Ha Hs]%andb_true_iff. apply negb_true_iff in Ha. rewrite Ha. simpl. auto.
Qed.

Lemma lacks_app p s t : lacks p (s +:+ t) = lacks p s && lacks p t.
Proof.
  induction s as [|a s IH]; [reflexivity|]. rewrite app_cons. simpl.
  rewrite IH, andb_assoc. reflexivity.
Qed.

Lemma lacks_uint (d : Decimal.uint) : lacks "<" (NilEmpty.string_of_uint d) = true.
Proof. induction d; simpl; try reflexivity; exact IHd. Qed.

Lemma lacks_of_Z z : lacks "<" (of_Z z) = true.
Proof.
  unfold of_Z, NilZero.string_of_int, NilZero.string_of_uint.
  destruct (Z.to_int z) as [d|d]; destruct d; try reflexivity;
    try (apply (lacks_uint (Decimal.D0 d)) || apply (lacks_uint (Decimal.D1 d)) ||
         apply (lacks_uint (Decimal.D2 d)) || apply (lacks_uint (Decimal.D3 d)) ||
         apply (lacks_uint (Decimal.D4 d)) || apply (lacks_uint (Decimal.D5 d)) ||
         apply (lacks_uint (Decimal.D6 d)) || apply (lacks_uint (Decimal.D7 d)) ||
         apply (lacks_uint (Decimal.D8 d)) || apply (lacks_uint (Decimal.D9 d))).
Qed.

Lemma free_of_iterInfo state : free_of "<promise>" (iterInfo state) = true.
Proof.
  apply lacks_free_of. unfold iterInfo.
  destruct (0 <? maxIterations state);
    rewrite ?lacks_app, ?lacks_of_Z; reflexivity.
Qed.

(** X7: when a promise is set, the first-turn reminder shows it verbatim
    between [<promise>] and [</promise>], and no promise tag, in any
    letter case, comes before it; when none is set (null or empty), the
    first-turn reminder holds no opening promise tag at all; the
    continuation reminder never holds one. *)
Theorem reminder_shows_promise :
  forall state,
    (forall p,
       completionPromise state = Some p -> p <> "" ->
       buildRalphFirstTurnReminder state
       = reminderLead state +:+ "<promise>" +:+ p +:+ "</promise>" +:+ reminderTrail /\
       split_at_ci "<promise>" (buildRalphFirstTurnReminder state)
       = Some (reminderLead state, p +:+ "</promise>" +:+ reminderTrail)) /\
    (truthy (completionPromise state) = false ->
     split_at_ci "<promise>" (buildRalphFirstTurnReminder state) = None) /\
    split_at_ci "<promise>" (buildRalphContinuationReminder state) = None.
Proof.
  intros state. split; [|split].
  - intros p Hp Hne.
    assert (Heq : buildRalphFirstTurnReminder state
                  = reminderLead state +:+ "<promise>" +:+ p +:+ "</promise>"
                    +:+ reminderTrail).
    { unfold buildRalphFirstTurnReminder, promiseBlock, reminderLead, reminderTrail.
      rewrite Hp. unfold truthy, template.
      rewrite bool_decide_eq_false_2 by assumption. cbn [negb].
      rewrite !app_assoc. reflexivity. }
    split; [exact Heq|]. rewrite Heq. unfold reminderLead.
    rewrite !app_assoc.
    rewrite free_of_split by reflexivity.
    rewrite free_of_split by apply free_of_iterInfo.
    rewrite free_of_split by reflexivity.
    rewrite (split_at_ci_here "<promise>" "<promise>") by reflexivity.
    rewrite app_empty_r. reflexivity.
  - intros Hfalse. unfold buildRalphFirstTurnReminder. rewrite Hfalse.
    rewrite !app_assoc.
    rewrite free_of_split by reflexivity.
    rewrite free_of_split by apply free_of_iterInfo.
    reflexivity.
  - unfold buildRalphContinuationReminder.
    rewrite free_of_split by reflexivity.
    rewrite free_of_split by apply free_of_iterInfo.
    reflexivity.
Qed.

(** ** The message of the error branch *)

Lemma errorMessage_unfold ls stop :
  errorMessage ls stop =
    match errorTexts ls with
    | [] => "Unexpected stop reason: " +:+ stop
    | texts => join "; " texts
    end.
Proof.
  unfold errorMessage. fold (errorTexts ls).
  destruct (errorTexts ls) as [|m texts]; reflexivity.
Qed.

Lemma errorTexts_app ls1 ls2 : errorTexts (ls1 ++ ls2) = errorTexts ls1 ++ errorTexts ls2.
Proof. unfold errorTexts. rewrite filter_app, map_app, filter_app. reflexivity. Qed.

Lemma join_app sep l1 l2 :
  l1 <> [] -> l2 <> [] -> join sep (l1 ++ l2) = join sep l1 +:+ sep +:+ join sep l2.
Proof.
  intros H1 H2. induction l1 as [|x l1 IH]; [congruence|].
  destruct l1 as [|y l1].
  - destruct l2; [congruence|reflexivity].
  - change (join sep ((x :: y :: l1) ++ l2))
      with (x +:+ sep +:+ join sep ((y :: l1) ++ l2)).
    rewrite IH by discriminate.
    change (join sep (x :: y :: l1)) with (x +:+ sep +:+ join sep (y :: l1)).
    rewrite !app_assoc. reflexivity.
Qed.

(** X8: the message of the error branch is built from the error lines
    alone. Lines of other kinds, and error lines without text, never
    change it; when no error line carries text it names the stop reason;
    otherwise it is the texts of the error lines in order, joined by
    "; ", so that the message for two groups of lines that both carry
    error text is the two messages joined by "; ". *)
Theorem error_message_from_error_lines :
  (forall ls stop,
     errorTexts ls = [] -> errorMessage ls stop = "Unexpected stop reason: " +:+ stop) /\
  (forall ls stop,
     errorTexts ls <> [] -> errorMessage ls stop = join "; " (errorTexts ls)) /\
  (forall line ls1 ls2 stop,
     kind line <> "error" \/ default "" (text line) = "" ->
     errorMessage (ls1 ++ line :: ls2) stop = errorMessage (ls1 ++ ls2) stop) /\
  (forall ls1 ls2 stop,
     errorTexts ls1 <> [] -> errorTexts ls2 <> [] ->
     errorMessage (ls1 ++ ls2) stop
     = errorMessage ls1 stop +:+ "; " +:+ errorMessage ls2 stop).
Proof.
  repeat split.
  - intros ls stop H. rewrite errorMessage_unfold, H. reflexivity.
  - intros ls stop H. rewrite errorMessage_unfold.
    destruct (errorTexts ls); [congruence|reflexivity].
  - intros line ls1 ls2 stop H.
    rewrite !errorMessage_unfold, !errorTexts_app.
    assert (Hskip : errorTexts (line :: ls2) = errorTexts ls2).
    { unfold errorTexts. rewrite filter_cons. destruct H as [H|H].
      - rewrite decide_False by assumption. reflexivity.
      - destruct (decide (kind line = "error")); [|reflexivity].
        cbn [map]. rewrite filter_cons, decide_False; [reflexivity|].
        intros Hne. apply Hne. exact H. }
    rewrite Hskip. reflexivity.
  - intros ls1 ls2 stop H1 H2.
    rewrite !errorMessage_unfold, errorTexts_app.
    destruct (errorTexts ls1) as [|m1 t1] eqn:E1; [congruence|].
    destruct (errorTexts ls2) as [|m2 t2] eqn:E2; [congruence|].
    exact (join_app "; " (m1 :: t1) (m2 :: t2) ltac:(discriminate) ltac:(discriminate)).
Qed.

(** ** The properties on scripted runs *)

Import Scripted.

Lemma exit_code_meaning_witness :
  @handleRalphCommand demo 5 "task" (PromiseText "DONE") 3 false
    (start [endTurn "working"; failed] [])
  = (Exit 2,
     snd (@handleRalphCommand demo 5 "task" (PromiseText "DONE") 3 false
            (start [endTurn "working"; failed] []))) /\
  ((2 = 1 /\
    shouldContinue
      (ralph (snd (@handleRalphCommand demo 5 "task" (PromiseText "DONE") 3 false
                     (start [endTurn "working"; failed] [])))) = false) \/
   (exists pre input d,
      trace (snd (@handleRalphCommand demo 5 "task" (PromiseText "DONE") 3 false
                    (start [endTurn "working"; failed] [])))
      = pre ++ [EvSend input; EvDrain d] /\
      ((2 = 0 /\
        completionMatched
          (ralph (snd (@handleRalphCommand demo 5 "task" (PromiseText "DONE") 3 false
                         (start [endTurn "working"; failed] [])))) d = true) \/
       (2 = 2 /\
        completionMatched
          (ralph (snd (@handleRalphCommand demo 5 "task" (PromiseText "DONE") 3 false
                         (start [endTurn "working"; failed] [])))) d = false /\
        stopReason d <> "end_turn" /\
        (stopReason d = "requires_approval" -> default [] (approvals d) = []))))).
Proof.
  split; [vm_compute; reflexivity|].
  apply (@exit_code_meaning demo 5 "task" (PromiseText "DONE") 3 false
           (start [endTurn "working"; failed] []) 2).
  vm_compute; reflexivity.
Defined.

(** The three exits on scripted runs: the phrase is met on the second
    turn; the cap of two is exhausted after one turn; the stream fails. *)
Example exit_codes_of_scripted_runs :
  fst (@handleRalphCommand demo 5 "task" (PromiseText "DONE") 0 false
         (start [endTurn "working"; endTurn "<promise>DONE</promise>"] [])) = Exit 0 /\
  fst (@handleRalphCommand demo 5 "task" (PromiseText "DONE") 2 false
         (start [endTurn "working"; endTurn "<promise>DONE</promise>"] [])) = Exit 1 /\
  fst (@handleRalphCommand demo 5 "task" (PromiseText "DONE") 0 false
         (start [endTurn "working"; failed] [])) = Exit 2.
Proof. vm_compute. repeat split. Qed.

Lemma reminder_shows_promise_witness :
  (completionPromise (activated (PromiseText "DONE") 3) = Some "DONE" /\
   "DONE" <> "" /\
   split_at_ci "<promise>" (buildRalphFirstTurnReminder (activated (PromiseText "DONE") 3))
   = Some (reminderLead (activated (PromiseText "DONE") 3),
           "DONE" +:+ "</promise>" +:+ reminderTrail)) /\
  (truthy (completionPromise (activated PromiseNull 3)) = false /\
   split_at_ci "<promise>" (buildRalphFirstTurnReminder (activated PromiseNull 3)) = None).
Proof.
  split.
  - split; [reflexivity|]. split; [discriminate|].
    apply (proj1 (reminder_shows_promise (activated (PromiseText "DONE") 3)) "DONE");
      [reflexivity|discriminate].
  - split; [reflexivity|].
    apply (proj1 (proj2 (reminder_shows_promise (activated PromiseNull 3)))).
    reflexivity.
Defined.

Lemma error_message_from_error_lines_witness :
  (errorTexts [assistant "partial"; mkLine "error" None] = [] /\
   errorMessage [assistant "partial"; mkLine "error" None] "llm_api_error"
   = "Unexpected stop reason: llm_api_error") /\
  (errorTexts [mkLine "error" (Some "rate limited")] <> [] /\
   errorTexts [mkLine "error" (Some "stream failed")] <> [] /\
   errorMessage
     ([mkLine "error" (Some "rate limited")] ++ [mkLine "error" (Some "stream failed")])
     "error"
   = "rate limited; stream failed") /\
  (kind (assistant "partial") <> "error" /\
   errorMessage ([mkLine "error" (Some "rate limited")] ++ assistant "partial" :: []) "error"
   = "rate limited").
Proof.
  split; [|split].
  - split; [reflexivity|].
    apply (proj1 error_message_from_error_lines
             [assistant "partial"; mkLine "error" None] "llm_api_error").
    reflexivity.
  - split; [discriminate|]. split; [discriminate|].
    apply (proj2 (proj2 (proj2 error_message_from_error_lines))
             [mkLine "error" (Some "rate limited")]
             [mkLine "error" (Some "stream failed")] "error");
      discriminate.
  - split; [discriminate|].
    rewrite (proj1 (proj2 (proj2 error_message_from_error_lines))
               (assistant "partial") [mkLine "error" (Some "rate limited")] [] "error");
      [reflexivity|left; discriminate].
Defined.

End RalphRunFacts.
